(** * HemoVita: marker classification, follow-up schedule and nutrient graph

    A shallow embedding of the data-transformation code of the HemoVita
    front end:

    - [frontend/lib/ref.ts]: the reference table [REF] and [classifyValue];
    - [frontend/lib/types.ts] (the recommendations module): [NOTES],
      [buildRecommendations], [summarize] and [buildSchedule];
    - [frontend/app/api/network/graph/route.ts]: the CSV relationship parser
      and the graph builder of the [GET] handler;
    - the [NutrientGraph3D] component: [normalizeId], the effect that
      computes the highlighted node identifiers, the flagged names and the
      node sizes;
    - [frontend/lib/validators/labs.ts], [frontend/components/labs/lab-form.tsx],
      [frontend/middleware.ts] and the routes [app/api/labs/[id]/route.ts]
      and [app/api/report/route.ts]: the validation of the lab inputs, the
      recommendation snapshot, the route guard and the two handlers.

    Modelling conventions.

    - A JavaScript string is a [string] of ASCII characters.  [toLowerCase]
      maps the letters A-Z, and the white space of [trim] and of the regular
      expression class \s is the ASCII white space (codes 9 to 13 and 32).
    - A JavaScript number is [NaN], an infinity, or a finite value; finite
      values are idealised as rationals, a decimal literal of the source
      standing for its exact value.  Comparisons follow the IEEE rules for
      the special values.  Where the source rounds the result of a division
      or of a sum, the properties are stated so as to hold of the doubles
      too: as an order, as an equality of values that are exact, or as a
      bound with the slack of the rounding ([roundoff]).
    - An optional value ([undefined] or [null]) is an [option].
    - A plain object used as a table ([REF], [NOTES]) is a [gmap] over its
      own keys.  A read by a computed key also finds the members that the
      object inherits from [Object.prototype] ([lookupREF]), and an
      assignment to the key [__proto__] goes to the inherited setter
      ([numericEntries]).  The insertion-ordered [Map] of the graph builder
      is an association list. *)

From Stdlib Require Import Ascii String QArith Lqa.
From stdpp Require Import base strings gmap list pretty.

Local Open Scope string_scope.

Set Warnings "-clear-no-such-hyp".

(** ** JavaScript strings *)

Module JsString.

Definition code (c : ascii) : nat := nat_of_ascii c.

(** White space as matched by [String.prototype.trim] and by \s. *)
Definition is_ws (c : ascii) : bool :=
  ((9 <=? code c)%nat && (code c <=? 13)%nat) || (code c =? 32)%nat.

Definition is_upper (c : ascii) : bool :=
  (65 <=? code c)%nat && (code c <=? 90)%nat.

Definition lower_char (c : ascii) : ascii :=
  if is_upper c then ascii_of_nat (code c + 32) else c.

Fixpoint toLowerCase (s : string) : string :=
  match s with
  | EmptyString => EmptyString
  | String c s' => String (lower_char c) (toLowerCase s')
  end.

Fixpoint trimStart (s : string) : string :=
  match s with
  | EmptyString => EmptyString
  | String c s' => if is_ws c then trimStart s' else s
  end.

Fixpoint trimEnd (s : string) : string :=
  match s with
  | EmptyString => EmptyString
  | String c s' =>
      match trimEnd s' with
      | EmptyString => if is_ws c then EmptyString else String c EmptyString
      | r => String c r
      end
  end.

Definition trim (s : string) : string := trimEnd (trimStart s).

Definition startsWith (s prefix : string) : bool := String.prefix prefix s.

Fixpoint includes (s needle : string) : bool :=
  String.prefix needle s ||
  match s with
  | EmptyString => false
  | String _ s' => includes s' needle
  end.

(** [s.split(sep)] for a one-character separator. *)
Fixpoint split (sep : ascii) (s : string) : list string :=
  match s with
  | EmptyString => [EmptyString]
  | String c s' =>
      if Ascii.eqb c sep then EmptyString :: split sep s'
      else match split sep s' with
           | [] => [String c EmptyString]
           | f :: fs => String c f :: fs
           end
  end.

(** [parts.join(sep)]. *)
Definition join (sep : string) (parts : list string) : string :=
  String.concat sep parts.

Definition is_lf (c : ascii) : bool := (code c =? 10)%nat.
Definition is_cr (c : ascii) : bool := (code c =? 13)%nat.

Definition push_front (c : ascii) (ls : list string) : list string :=
  match ls with
  | [] => [String c EmptyString]
  | l :: ls' => String c l :: ls'
  end.

(** [raw.split(/\r?\n/)]. *)
Fixpoint splitLines (s : string) : list string :=
  match s with
  | EmptyString => [EmptyString]
  | String c s' =>
      if is_lf c then EmptyString :: splitLines s'
      else
        match s' with
        | String c2 s'' =>
            if is_cr c && is_lf c2 then EmptyString :: splitLines s''
            else push_front c (splitLines s')
        | EmptyString => push_front c (splitLines s')
        end
  end.

(** [s.replace(/\s+/g, "_")]: [in_run] tells that the previous character
    belonged to the white-space run already replaced. *)
Fixpoint replaceWsRuns (in_run : bool) (s : string) : string :=
  match s with
  | EmptyString => EmptyString
  | String c s' =>
      if is_ws c then
        if in_run then replaceWsRuns true s'
        else String "_" (replaceWsRuns true s')
      else String c (replaceWsRuns false s')
  end.

(** [s.replaceAll("_", " ")]. *)
Fixpoint replaceUnderscores (s : string) : string :=
  match s with
  | EmptyString => EmptyString
  | String c s' =>
      String (if Ascii.eqb c "_" then " "%char else c) (replaceUnderscores s')
  end.

End JsString.

(** ** JavaScript numbers *)

Inductive number : Type :=
| NaN
| Infinity (negative : bool)
| Finite (q : Q).

Definition isNaN (x : number) : bool :=
  match x with NaN => true | _ => false end.

Definition isFinite (x : number) : bool :=
  match x with Finite _ => true | _ => false end.

Definition Qlt_bool (x y : Q) : bool := negb (Qle_bool y x).

(** [a < b] on numbers: false as soon as one side is [NaN]. *)
Definition num_lt (a b : number) : bool :=
  match a, b with
  | NaN, _ | _, NaN => false
  | Infinity true, Infinity true => false
  | Infinity true, _ => true
  | _, Infinity true => false
  | Infinity false, _ => false
  | Finite _, Infinity false => true
  | Finite x, Finite y => Qlt_bool x y
  end.

(** [a > b] is [b < a]. *)
Definition num_gt (a b : number) : bool := num_lt b a.

(** ** Reference table and classifier ([lib/ref.ts]) *)

Record Range : Type := { low : option number; high : option number }.

Definition range (l h : Q) : Range :=
  {| low := Some (Finite l); high := Some (Finite h) |}.

Definition REF : gmap string Range :=
  list_to_map
    [ ("Hemoglobin", range 12.0 16.0);
      ("MCV", range 80 100);
      ("ferritin", range 30 200);
      ("indicator_iron_serum", range 60 170);
      ("transferrin", range 200 360);
      ("total_iron_binding_capacity", range 250 450);
      ("vitamin_B12", range 200 900);
      ("folate_plasma", range 4.0 20.0);
      ("vitamin_D", range 20 50);
      ("vitamin_C", range 0.4 2.0);
      ("vitamin_E", range 5.0 20.0);
      ("vitamin_A", range 20 80);
      ("vitamin_B6", range 5 50);
      ("magnesium", range 1.7 2.3);
      ("calcium", range 8.6 10.2);
      ("zinc", range 60 120);
      ("homocysteine", range 5 15) ].

Inductive Status : Type := StLow | StNormal | StHigh | StUnknown.

Global Instance Status_eq_dec : EqDecision Status.
Proof. solve_decision. Defined.

(** [REF] is an object literal, so that a property read on it also finds the
    members every object inherits from [Object.prototype]. *)
Definition objectPrototypeKeys : list string :=
  [ "constructor"; "hasOwnProperty"; "isPrototypeOf"; "propertyIsEnumerable";
    "toLocaleString"; "toString"; "valueOf"; "__proto__";
    "__defineGetter__"; "__defineSetter__"; "__lookupGetter__";
    "__lookupSetter__" ].

(** [REF[marker]]: the own entry of the table; else, for an inherited name, a
    function (or the prototype object, for [__proto__]), which is truthy and
    has neither [low] nor [high]; else [undefined]. *)
Definition lookupREF (marker : string) : option Range :=
  match REF !! marker with
  | Some r => Some r
  | None =>
      if bool_decide (marker ∈ objectPrototypeKeys)
      then Some {| low := None; high := None |}
      else None
  end.

Definition classifyValue (marker : string) (value : option number) : Status :=
  match value, lookupREF marker with
  | None, _ => StUnknown
  | Some v, r =>
      if isNaN v then StUnknown
      else
        match r with
        | None => StUnknown
        | Some r =>
            if match low r with Some l => num_lt v l | None => false end
            then StLow
            else if match high r with Some h => num_gt v h | None => false end
            then StHigh
            else StNormal
        end
  end.


(** ** Recommendations ([lib/types.ts], the recommendations module) *)

Record MarkerClassification : Type := {
  marker : string;
  value : option number;
  status : Status;
  note : string
}.

Record ScheduleItem : Type := {
  title : string;
  timeframe : string;
  description : string
}.

Record RecommendationPayload : Type := {
  markers : list MarkerClassification;
  summary : string;
  schedule : list ScheduleItem
}.

Record NoteEntry : Type := { note_low : option string; note_high : option string }.

Definition NOTES : gmap string NoteEntry :=
  list_to_map
    [ ("Hemoglobin",
       {| note_low := Some "Hemoglobin is below the reference range and may indicate anemia or iron deficiency.";
          note_high := Some "Elevated hemoglobin can be associated with dehydration or chronic hypoxia." |});
      ("MCV",
       {| note_low := Some "Low MCV values can signal microcytic anemia, often linked to iron deficiency.";
          note_high := Some "High MCV is associated with macrocytic anemia and can reflect B12 or folate deficiency." |});
      ("ferritin",
       {| note_low := Some "Low ferritin is a strong indicator of depleted iron stores.";
          note_high := Some "High ferritin can be inflammatory or signal iron overload." |});
      ("vitamin_B12",
       {| note_low := Some "Low B12 may contribute to neuropathy and macrocytic anemia.";
          note_high := Some "Elevated B12 can be linked to supplementation or liver dysfunction." |});
      ("folate_plasma",
       {| note_low := Some "Low folate can impair cell division and contribute to macrocytic anemia.";
          note_high := Some "High folate is usually benign but can mask B12 deficiency symptoms." |});
      ("vitamin_D",
       {| note_low := Some "Low vitamin D is associated with bone density loss and immune dysregulation.";
          note_high := Some "High vitamin D may cause hypercalcemia; ensure dosing is appropriate." |});
      ("homocysteine",
       {| note_low := None;
          note_high := Some "Elevated homocysteine is a cardiovascular risk marker and may respond to B12, folate, and B6." |}) ].

(** [entry[status]]: an entry has the keys "low" and "high" only. *)
Definition note_at (entry : NoteEntry) (st : Status) : option string :=
  match st with
  | StLow => note_low entry
  | StHigh => note_high entry
  | StNormal | StUnknown => None
  end.

(** [NOTES[marker]?.[status]]. *)
Definition lookupNote (marker : string) (st : Status) : option string :=
  match NOTES !! marker with
  | Some entry => note_at entry st
  | None => None
  end.

Definition NOTE_NORMAL : string :=
  "Within the reference range; continue current support.".
Definition NOTE_NO_REFERENCE : string :=
  "No reference available for this marker.".

(** The body of the [map] callback of [buildRecommendations]. *)
Definition classifyEntry (entry : string * option number) : MarkerClassification :=
  let '(marker, value) := entry in
  let status := classifyValue marker value in
  let note :=
    match lookupNote marker status with
    | Some n => n
    | None =>
        if bool_decide (status = StNormal) then NOTE_NORMAL else NOTE_NO_REFERENCE
    end in
  {| marker := marker; value := value; status := status; note := note |}.

(** [array.push(item)]. *)
Definition push {A : Type} (l : list A) (x : A) : list A := (l ++ [x])%list.

Definition count_status (st : Status) (cs : list MarkerClassification) : nat :=
  length (filter (fun c => status c = st) cs).

Definition summarize (classifications : list MarkerClassification) : string :=
  let lowCount := count_status StLow classifications in
  let highCount := count_status StHigh classifications in
  if (lowCount =? 0)%nat && (highCount =? 0)%nat then
    "All submitted markers are currently within the reference range."
  else
    let parts : list string := [] in
    let parts := if (lowCount =? 0)%nat then parts else push parts (pretty lowCount +:+ " low") in
    let parts := if (highCount =? 0)%nat then parts else push parts (pretty highCount +:+ " high") in
    "Detected " +:+ JsString.join " and " parts +:+ " marker" +:+
    (if (1 <? lowCount + highCount)%nat then "s" else "") +:+
    ". Prioritize follow-up with your provider.".

(** [classifications.some(p)]. *)
Definition some {A : Type} (p : A -> bool) (l : list A) : bool := existsb p l.

Definition isIronIssue (c : MarkerClassification) : bool :=
  (String.eqb (marker c) "Hemoglobin" || String.eqb (marker c) "ferritin" ||
   String.eqb (marker c) "indicator_iron_serum") &&
  bool_decide (status c = StLow).

Definition isBComplexIssue (c : MarkerClassification) : bool :=
  (String.eqb (marker c) "vitamin_B12" || String.eqb (marker c) "folate_plasma" ||
   String.eqb (marker c) "vitamin_B6") &&
  (bool_decide (status c = StLow) || bool_decide (status c = StHigh)).

Definition isVitaminDIssue (c : MarkerClassification) : bool :=
  String.eqb (marker c) "vitamin_D" && negb (bool_decide (status c = StNormal)).

Definition lifestyleCheckIn : ScheduleItem :=
  {| title := "Lifestyle Check-in";
     timeframe := "This week";
     description := "Review dietary intake, sleep, and stress. Capture at least three days of meals to discuss with your care team." |}.

Definition practitionerReview (followUps : nat) : ScheduleItem :=
  {| title := "Practitioner Review";
     timeframe := if (0 <? followUps)%nat then "Within 2 weeks" else "Within 6 months";
     description :=
       if (followUps =? 0)%nat
       then "Maintain routine monitoring with your healthcare provider."
       else "Share these results with your primary care provider or dietitian to confirm next steps." |}.

Definition ironReevaluation : ScheduleItem :=
  {| title := "Iron Re-evaluation";
     timeframe := "In 6-8 weeks";
     description := "Re-check hemoglobin, ferritin, and transferrin saturation after implementing dietary or supplement changes." |}.

Definition bVitaminFollowUp : ScheduleItem :=
  {| title := "B-Vitamin Follow-up";
     timeframe := "In 8 weeks";
     description := "Assess B12, folate, and homocysteine after adjusting intake or supplements." |}.

Definition vitaminDMonitoring : ScheduleItem :=
  {| title := "Vitamin D Monitoring";
     timeframe := "In 12 weeks";
     description := "Re-test 25(OH)D to ensure levels trend toward the target range." |}.

Definition buildSchedule (classifications : list MarkerClassification) : list ScheduleItem :=
  let hasIronIssues := some isIronIssue classifications in
  let hasBComplexIssues := some isBComplexIssue classifications in
  let hasVitaminDIssue := some isVitaminDIssue classifications in
  let followUps := length (filter (fun c => status c <> StNormal) classifications) in
  let schedule := [lifestyleCheckIn; practitionerReview followUps] in
  let schedule := if hasIronIssues then push schedule ironReevaluation else schedule in
  let schedule := if hasBComplexIssues then push schedule bVitaminFollowUp else schedule in
  let schedule := if hasVitaminDIssue then push schedule vitaminDMonitoring else schedule in
  schedule.

(** [values] is given by its entries, in the order of [Object.entries]. *)
Definition buildRecommendations (values : list (string * option number)) : RecommendationPayload :=
  let markers := map classifyEntry values in
  {| markers := markers;
     summary := summarize markers;
     schedule := buildSchedule markers |}.

(** ** Exceptions

    The [GET] handler runs inside [try]/[catch]: a computation either
    returns or throws a value whose [message] may be missing. *)

Inductive Result (A : Type) : Type :=
| Ok (a : A)
| Throw (message : option string).
Arguments Ok {A} a.
Arguments Throw {A} message.

Definition bind {A B : Type} (r : Result A) (k : A -> Result B) : Result B :=
  match r with
  | Ok a => k a
  | Throw m => Throw m
  end.

Notation "x <- r ;; k" := (bind r (fun x => k))
  (at level 100, r at next level, right associativity).

(** ** Graph route ([app/api/network/graph/route.ts]) *)

Inductive RelationType : Type := Booster | Antagonist | Cofactor | Shared.
Inductive NutrientType : Type := Vitamin | Mineral | Marker | Compound.
Inductive ClusterName : Type := ClusterIron | ClusterBComplex | ClusterFatSoluble | ClusterOther.

Record CsvEdge : Type := {
  source : string;
  target : string;
  effect : string;
  confidence : string;
  notes : string
}.

Definition mapEffectToRelation (effect : string) : RelationType :=
  let e := JsString.toLowerCase (JsString.trim effect) in
  if String.eqb e "boosts" || String.eqb e "enhances" then Booster
  else if String.eqb e "inhibits" || String.eqb e "reduces" || String.eqb e "blocks" then Antagonist
  else if String.eqb e "cofactor" || String.eqb e "supports" then Cofactor
  else Shared.

Definition confidenceToNumber (conf : string) : Q :=
  let c := JsString.toLowerCase (JsString.trim conf) in
  if JsString.includes c "high" && JsString.includes c "moderate" then 0.75
  else if JsString.includes c "high" then 0.9
  else if JsString.includes c "moderate" && JsString.includes c "low" then 0.45
  else if JsString.includes c "moderate" then 0.6
  else if JsString.includes c "low" then 0.3
  else 0.5.

Definition MINERALS : gset string :=
  list_to_set ["iron"; "zinc"; "magnesium"; "calcium"; "copper"; "selenium"].

Definition classifyNodeType (id : string) : NutrientType :=
  let k := JsString.toLowerCase id in
  if JsString.startsWith k "vitamin_" then Vitamin
  else if bool_decide (k ∈ MINERALS) then Mineral
  else if JsString.includes k "hemoglobin" ||
          JsString.includes k "ferritin" ||
          JsString.includes k "transferrin" ||
          JsString.includes k "mcv" ||
          JsString.includes k "tibc" ||
          JsString.includes k "indicator_" ||
          JsString.includes k "homocysteine" ||
          JsString.includes k "anemia"
  then Marker
  else Compound.

Definition clusterOf (id : string) : ClusterName :=
  let k := JsString.toLowerCase id in
  if JsString.includes k "iron" ||
     JsString.includes k "hemoglobin" ||
     JsString.includes k "ferritin" ||
     JsString.includes k "transferrin" ||
     JsString.includes k "tibc"
  then ClusterIron
  else if JsString.startsWith k "vitamin_b" then ClusterBComplex
  else if String.eqb k "vitamin_a" || String.eqb k "vitamin_d" ||
          String.eqb k "vitamin_e" || String.eqb k "vitamin_k"
  then ClusterFatSoluble
  else ClusterOther.

(** *** Relationship parser: the first loop of [GET] *)

(** [raw.split(/\r?\n/).filter((l) => l.trim().length > 0)]. *)
Definition nonBlank (l : string) : bool :=
  (0 <? String.length (JsString.trim l))%nat.

Definition readLines (raw : string) : list string :=
  List.filter nonBlank (JsString.splitLines raw).

(** One iteration of the [for] loop: [None] is [continue]. *)
Definition parseLine (line : string) : option CsvEdge :=
  let parts := JsString.split "," line in
  if (length parts <? 5)%nat then None
  else
    match parts with
    | source :: target :: effect :: confidence :: notesParts =>
        let notes := JsString.trim (JsString.join "," notesParts) in
        Some {| source := JsString.trim source;
                target := JsString.trim target;
                effect := JsString.trim effect;
                confidence := JsString.trim confidence;
                notes := notes |}
    | _ => None
    end.

Definition parseEdges (lines : list string) : list CsvEdge :=
  fold_left
    (fun edges line =>
       match parseLine line with
       | Some e => push edges e
       | None => edges
       end)
    lines [].

(** *** Graph builder: the [nodeSet] accumulator *)

Record NodeAcc : Type := {
  acc_id : string;
  degree : nat;
  confidences : list Q
}.

(** The [Map] keeps its entries in insertion order. *)
Definition NodeSet : Type := list (string * NodeAcc).

Fixpoint has (m : NodeSet) (k : string) : bool :=
  match m with
  | [] => false
  | (k', _) :: m' => String.eqb k' k || has m' k
  end.

Fixpoint get (m : NodeSet) (k : string) : option NodeAcc :=
  match m with
  | [] => None
  | (k', v) :: m' => if String.eqb k' k then Some v else get m' k
  end.

(** [m.set(k, v)]: an existing key keeps its position. *)
Fixpoint set (m : NodeSet) (k : string) (v : NodeAcc) : NodeSet :=
  match m with
  | [] => [(k, v)]
  | (k', v') :: m' =>
      if String.eqb k' k then (k', v) :: m' else (k', v') :: set m' k v
  end.

(** [m.get(k)!.field = f(...)]: the entry object is mutated in place, and
    reading a field of a missing entry throws a [TypeError]. *)
Definition mutate (m : NodeSet) (k : string) (field : string)
    (f : NodeAcc -> NodeAcc) : Result NodeSet :=
  match get m k with
  | Some v => Ok (set m k (f v))
  | None =>
      Throw (Some ("Cannot read properties of undefined (reading '" +:+ field +:+ "')"))
  end.

Definition incrDegree (n : NodeAcc) : NodeAcc :=
  {| acc_id := acc_id n; degree := degree n + 1; confidences := confidences n |}.

Definition pushConfidence (c : Q) (n : NodeAcc) : NodeAcc :=
  {| acc_id := acc_id n; degree := degree n; confidences := push (confidences n) c |}.

Record Link : Type := {
  link_source : string;
  link_target : string;
  relation : RelationType;
  strength : Q;
  confidenceLabel : string;
  link_notes : string
}.

Definition ensure (m : NodeSet) (k : string) : NodeSet :=
  if has m k then m else set m k {| acc_id := k; degree := 0; confidences := [] |}.

(** The callback of [edges.map], threading [nodeSet]. *)
Definition visitEdge (nodeSet : NodeSet) (e : CsvEdge) : Result (NodeSet * Link) :=
  let rel := mapEffectToRelation (effect e) in
  let confNum := confidenceToNumber (confidence e) in
  let nodeSet := ensure nodeSet (source e) in
  let nodeSet := ensure nodeSet (target e) in
  nodeSet <- mutate nodeSet (source e) "degree" incrDegree ;;
  nodeSet <- mutate nodeSet (target e) "degree" incrDegree ;;
  nodeSet <- mutate nodeSet (source e) "confidences" (pushConfidence confNum) ;;
  nodeSet <- mutate nodeSet (target e) "confidences" (pushConfidence confNum) ;;
  Ok (nodeSet,
      {| link_source := source e;
         link_target := target e;
         relation := rel;
         strength := confNum;
         confidenceLabel := confidence e;
         link_notes := notes e |}).

Fixpoint visitEdges (nodeSet : NodeSet) (links : list Link) (edges : list CsvEdge)
    : Result (NodeSet * list Link) :=
  match edges with
  | [] => Ok (nodeSet, links)
  | e :: edges' =>
      r <- visitEdge nodeSet e ;;
      visitEdges (fst r) (push links (snd r)) edges'
  end.

Record Node : Type := {
  id : string;
  label : string;
  type : NutrientType;
  cluster : ClusterName;
  importance : Q;
  risk : Q;
  node_confidence : Q
}.

(** [Math.max(1, ...degrees)].  The spread passes one argument per node;
    the call is taken within the limit that the engine puts on the number
    of arguments of a call (beyond it the call throws a RangeError, which
    the handler reports with status 500). *)
Definition maxDegree (nodeSet : NodeSet) : nat :=
  fold_left Nat.max (map (fun kv => degree (snd kv)) nodeSet) 1%nat.

Definition ofNat (n : nat) : Q := inject_Z (Z.of_nat n).

(** [confidences.reduce((a, b) => a + b, 0)]. *)
Definition sumQ (l : list Q) : Q := fold_left Qplus l 0%Q.

Definition makeNode (maxDeg : nat) (n : NodeAcc) : Node :=
  let confAvg :=
    if (length (confidences n) =? 0)%nat then 0.5%Q
    else (sumQ (confidences n) / ofNat (length (confidences n)))%Q in
  let id := acc_id n in
  {| id := id;
     label := JsString.replaceUnderscores id;
     type := classifyNodeType id;
     cluster := clusterOf id;
     importance := (ofNat (degree n) / ofNat maxDeg)%Q;
     risk := if JsString.includes id "anemia" then 1%Q else 0.5%Q;
     node_confidence := confAvg |}.

Definition buildNodes (nodeSet : NodeSet) : list Node :=
  let maxDeg := maxDegree nodeSet in
  map (fun kv => makeNode maxDeg (snd kv)) nodeSet.

(** *** The handler *)

Inductive Body : Type :=
| ErrorBody (error : string)
| GraphBody (nodes : list Node) (links : list Link).

Record Response : Type := { body : Body; http_status : nat }.

(** [!header] for the result of [lines.shift()]. *)
Definition falsy (header : option string) : bool :=
  match header with
  | None => true
  | Some h => String.eqb h ""
  end.

(** The [try] block; [readFile] stands for the awaited file read. *)
Definition tryGET (readFile : Result string) : Result Response :=
  raw <- readFile ;;
  let lines := readLines raw in
  let header := head lines in
  let lines := tail lines in
  if falsy header then Ok {| body := ErrorBody "Empty CSV"; http_status := 500 |}
  else
    let edges := parseEdges lines in
    r <- visitEdges [] [] edges ;;
    let nodes := buildNodes (fst r) in
    Ok {| body := GraphBody nodes (snd r); http_status := 200 |}.

Definition GET (readFile : Result string) : Response :=
  match tryGET readFile with
  | Ok response => response
  | Throw message =>
      {| body := ErrorBody (default "Failed to load network" message);
         http_status := 500 |}
  end.

(** ** Snapshot highlighter ([NutrientGraph3D]) *)

Definition normalizeId (value : string) : string :=
  JsString.replaceWsRuns false (JsString.toLowerCase value).

(** The effect that computes [highlightedIds]. *)
Definition highlightedIds (nodes : list Node)
    (deficiencyNames highRiskNames : list string) : gset string :=
  if (length nodes =? 0)%nat then ∅
  else
    let targets : gset string :=
      fold_left (fun targets name => targets ∪ {[ normalizeId name ]})
                (deficiencyNames ++ highRiskNames)%list ∅ in
    fold_left
      (fun (matched : gset string) n =>
         let idNorm := normalizeId (id n) in
         if bool_decide (idNorm ∈ targets) || bool_decide (normalizeId (label n) ∈ targets)
         then matched ∪ {[ id n ]}
         else matched)
      nodes ∅.


(** ** Notions used to state the properties *)

(** The keys of [nodeSet], in insertion order. *)
Definition keys (m : NodeSet) : list string := map fst m.

Definition sumDegrees (m : NodeSet) : nat := sum_list (map (fun kv => degree (snd kv)) m).

(** The endpoint identifiers of the edges, with repetitions. *)
Definition endpoints (edges : list CsvEdge) : list string :=
  flat_map (fun e => [source e; target e]) edges.

(** How many ends of [e] are [k]: 2 for a self-loop on [k]. *)
Definition touches (k : string) (e : CsvEdge) : nat :=
  Nat.b2n (String.eqb (source e) k) + Nat.b2n (String.eqb (target e) k).

(** The strengths of the edge ends at [k], in edge order. *)
Definition strengthsAt (k : string) (edges : list CsvEdge) : list Q :=
  flat_map (fun e => replicate (touches k e) (confidenceToNumber (confidence e))) edges.

Definition linkOf (e : CsvEdge) : Link :=
  {| link_source := source e;
     link_target := target e;
     relation := mapEffectToRelation (effect e);
     strength := confidenceToNumber (confidence e);
     confidenceLabel := confidence e;
     link_notes := notes e |}.

Definition unit_interval (q : Q) : Prop := (0 <= q <= 1)%Q.

(** What [nodeSet] holds for [k] once [edges] have been visited. *)
Definition accOf (k : string) (edges : list CsvEdge) : NodeAcc :=
  {| acc_id := k;
     degree := length (strengthsAt k edges);
     confidences := strengthsAt k edges |}.

(** [nodeSet] after the visit of [edges]: one entry per endpoint, each
    holding the degree and the strengths of that endpoint. *)
Definition consistent (m : NodeSet) (edges : list CsvEdge) : Prop :=
  NoDup (keys m) /\
  (forall k, k ∈ keys m <-> k ∈ endpoints edges) /\
  (forall k v, get m k = Some v -> v = accOf k edges).

(** [mutate] on an entry that exists. *)
Definition alterAcc (f : NodeAcc -> NodeAcc) (k : string) (m : NodeSet) : NodeSet :=
  match get m k with
  | Some v => set m k (f v)
  | None => m
  end.

Definition freshAcc (k : string) : NodeAcc :=
  {| acc_id := k; degree := 0; confidences := [] |}.

(** [cnt] increments of the degree and [cnt] pushes of [c]. *)
Definition bump (cnt : nat) (c : Q) (n : NodeAcc) : NodeAcc :=
  {| acc_id := acc_id n;
     degree := degree n + cnt;
     confidences := (confidences n ++ replicate cnt c)%list |}.

(** Two edges at "iron", labelled "High" and "Low". *)
Definition ironHighLow : list CsvEdge :=
  [ {| source := "iron"; target := "vitamin_c"; effect := "boosts";
       confidence := "High"; notes := "" |};
    {| source := "calcium"; target := "iron"; effect := "inhibits";
       confidence := "Low"; notes := "" |} ].

(** The fields of an accepted line, following the format
    [source,target,effect,confidence,notes...]. *)
Definition edgeOfFields (parts : list string) : CsvEdge :=
  {| source := JsString.trim (nth 0 parts "");
     target := JsString.trim (nth 1 parts "");
     effect := JsString.trim (nth 2 parts "");
     confidence := JsString.trim (nth 3 parts "");
     notes := JsString.trim (JsString.join "," (drop 4 parts)) |}.

(** Two nodes as the graph route returns them. *)
Definition vitaminDNode : Node :=
  {| id := "vitamin_d"; label := "vitamin d"; type := Vitamin;
     cluster := ClusterFatSoluble; importance := 1; risk := 0.5;
     node_confidence := 0.9 |}.

Definition vitaminDAndCalcium : list Node :=
  [ vitaminDNode;
    {| id := "calcium"; label := "calcium"; type := Mineral;
       cluster := ClusterOther; importance := 1; risk := 0.5;
       node_confidence := 0.9 |} ].

(** A non-empty run of white space. *)
Definition ws_run (w : string) : Prop :=
  w <> "" /\ Forall (fun c => JsString.is_ws c = true) (list_ascii_of_string w).

(** [n] is named by the snapshot: its normalized id or label is the
    normalization of a name of one of the two lists. *)
Definition named (deficiencies highRisk : list string) (n : Node) : Prop :=
  exists name,
    (name ∈ deficiencies \/ name ∈ highRisk) /\
    (normalizeId (id n) = normalizeId name \/ normalizeId (label n) = normalizeId name).

Definition no_comma (f : string) : Prop := JsString.includes f "," = false.

Definition accepted (line : string) : Prop :=
  5 <= length (JsString.split "," line).

Global Instance accepted_dec (line : string) : Decision (accepted line).
Proof. unfold accepted. apply _. Defined.

(** ** Further notions for the graph and the handler *)

(** The distinct elements of a list, in the order of their first
    occurrence. *)
Definition firstOccurrences (l : list string) : list string :=
  rev (remove_dups (rev l)).

(** The mean of a non-empty list, as [makeNode] computes it. *)
Definition meanQ (l : list Q) : Q := (sumQ l / ofNat (length l))%Q.

Definition between (lo hi q : Q) : Prop := (lo <= q <= hi)%Q.

Definition isGraph (r : Response) : Prop :=
  match body r with GraphBody _ _ => True | ErrorBody _ => False end.

(** ** Further notions for strings *)

Definition chars (s : string) : list ascii := list_ascii_of_string s.

(** A possibly empty run of white space. *)
Definition all_ws (w : string) : Prop :=
  Forall (fun c => JsString.is_ws c = true) (chars w).

(** A line without carriage return and line feed. *)
Definition no_newline (l : string) : Prop :=
  Forall (fun c => JsString.is_lf c = false /\ JsString.is_cr c = false) (chars l).

Definition startsWithUnderscore (s : string) : bool :=
  match s with
  | String c _ => Ascii.eqb c "_"
  | EmptyString => false
  end.

(** An identifier without white space and without two underscores in a
    row. *)
Fixpoint plainId (s : string) : bool :=
  match s with
  | EmptyString => true
  | String c s' =>
      negb (JsString.is_ws c) &&
      negb (Ascii.eqb c "_" && startsWithUnderscore s') &&
      plainId s'
  end.

(** The effect words that [mapEffectToRelation] knows. *)
Definition effectWords : list string :=
  ["boosts"; "enhances"; "inhibits"; "reduces"; "blocks"; "cofactor"; "supports"].

(** ** Further notions for the recommendations *)

Definition SUMMARY_ALL_NORMAL : string :=
  "All submitted markers are currently within the reference range.".

(** The note texts of [NOTES]. *)
Definition noteTexts : list string :=
  flat_map (fun kv => option_list (note_low (snd kv)) ++ option_list (note_high (snd kv)))%list
           (map_to_list NOTES).

(** ** Recommendation snapshot ([components/labs/lab-form.tsx]) *)

Record RiskMicronutrient : Type := {
  micronutrient : string;
  predicted_risk : number
}.

(** The parts of the report that the snapshot reads; a field that may be
    missing at run time is an [option]. *)
Record RiskProfile : Type := {
  high_risk_micronutrients : option (list RiskMicronutrient)
}.

Record ReportResponse : Type := {
  labels : option (list (string * string));
  network_notes : option (list string);
  risk_profile : option RiskProfile
}.

Record RecommendationSnapshot : Type := {
  deficiencies : list string;
  highRisk : list string;
  networkNotes : list string;
  createdAt : Z
}.

(** [status && status !== "normal" && status !== "unknown"]. *)
Definition isFlaggedStatus (status : string) : bool :=
  negb (String.eqb status "") &&
  negb (String.eqb status "normal") &&
  negb (String.eqb status "unknown").

(** The snapshot that [persistRecommendationSnapshot] serializes into
    local storage; [now] is [Date.now()]. *)
Definition recommendationSnapshot (result : ReportResponse) (now : Z)
    : RecommendationSnapshot :=
  let deficiencies :=
    map fst (List.filter (fun entry => isFlaggedStatus (snd entry))
                         (default [] (labels result))) in
  let highRisk :=
    match risk_profile result with
    | Some profile =>
        match high_risk_micronutrients profile with
        | Some ms => map micronutrient ms
        | None => []
        end
    | None => []
    end in
  {| deficiencies := deficiencies;
     highRisk := highRisk;
     networkNotes := default [] (network_notes result);
     createdAt := now |}.

(** [new Set(iterable)] keeps the first occurrence of each element, in
    order. *)
Definition setAdd (s : list string) (x : string) : list string :=
  if bool_decide (x ∈ s) then s else push s x.

(** [Array.from(new Set([...deficiencyNames, ...highRiskNames]))]. *)
Definition flagged (deficiencyNames highRiskNames : list string) : list string :=
  fold_left setAdd (deficiencyNames ++ highRiskNames)%list [].

(** ** Node sizes ([NutrientGraph3D]) *)

Inductive SizeMetric : Type := ByImportance | ByRisk | ByConfidence.

(** [n[sizeMetric]]; the three fields of a node are always present, so the
    fallback of [?? 0.5] is not used. *)
Definition metricOf (metric : SizeMetric) (n : Node) : Q :=
  match metric with
  | ByImportance => importance n
  | ByRisk => risk n
  | ByConfidence => node_confidence n
  end.

(** [Math.max(a, b)] on finite numbers. *)
Definition maxQ (a b : Q) : Q := if Qle_bool a b then b else a.

(** The callback given to [nodeVal]. *)
Definition nodeValue (highlighted : gset string) (sizeMetric : SizeMetric) (n : Node) : Q :=
  let base := (5 + 12 * metricOf sizeMetric n)%Q in
  if bool_decide (id n ∈ highlighted) then (base + 6)%Q else base.

(** The radius of the sphere drawn by [buildLabeledNode]. *)
Definition sphereRadius (metric : SizeMetric) (n : Node) : Q :=
  let radius := (5 + 12 * metricOf metric n)%Q in
  maxQ (radius * 0.2) 1.5.

(** ** Lab input validation ([lib/validators/labs.ts]) *)

(** A value of the union [string | number | null | undefined]. *)
Inductive FieldInput : Type :=
| InString (s : string)
| InNumber (n : number)
| InNull
| InUndefined.

(** [a <= b] on numbers: false as soon as one side is [NaN]. *)
Definition num_le (a b : number) : bool :=
  match a, b with
  | NaN, _ | _, NaN => false
  | Infinity true, _ => true
  | _, Infinity false => true
  | Infinity false, _ => false
  | Finite _, Infinity true => false
  | Finite x, Finite y => Qle_bool x y
  end.

(** [a >= b] is [b <= a]. *)
Definition num_ge (a b : number) : bool := num_le b a.

Section Validators.

(** The conversion [Number(s)] of a string to a number. *)
Variable Number : string -> number.

(** The callback of [transform]. *)
Definition transformField (val : FieldInput) : option number :=
  match val with
  | InNull | InUndefined => None
  | InNumber n => Some (if isFinite n then n else NaN)
  | InString s =>
      let trimmed := JsString.trim s in
      if String.eqb trimmed "" then None
      else
        let parsed := Number trimmed in
        Some (if isFinite parsed then parsed else NaN)
  end.

(** The three [refine] predicates, in order. *)
Definition refineIsNumber (val : option number) : bool :=
  match val with
  | None => true
  | Some v => negb (isNaN v)
  end.

Definition refineMin (min : option number) (val : option number) : bool :=
  match val, min with
  | None, _ | _, None => true
  | Some v, Some mn => num_ge v mn
  end.

Definition refineMax (max : option number) (val : option number) : bool :=
  match val, max with
  | None, _ | _, None => true
  | Some v, Some mx => num_le v mx
  end.

(** A field value is accepted when no refinement of [numericField] raises
    an issue on the transformed value. *)
Definition fieldAccepted (min max : option number) (input : FieldInput) : bool :=
  let val := transformField input in
  refineIsNumber val && refineMin min val && refineMax max val.

End Validators.

Record FieldSpec : Type := {
  field_label : string;
  field_min : option number;
  field_max : option number
}.

Definition numericField (label : string) (min max : Q) : FieldSpec :=
  {| field_label := label;
     field_min := Some (Finite min);
     field_max := Some (Finite max) |}.

Definition labSchema : list (string * FieldSpec) :=
  [ ("Hemoglobin", numericField "Hemoglobin" 0 25);
    ("MCV", numericField "MCV" 40 150);
    ("ferritin", numericField "Ferritin" 0 500);
    ("vitamin_B12", numericField "Vitamin B12" 0 2000);
    ("folate_plasma", numericField "Folate" 0 40);
    ("vitamin_D", numericField "Vitamin D" 0 150);
    ("magnesium", numericField "Magnesium" 0 4);
    ("zinc", numericField "Zinc" 0 300);
    ("calcium", numericField "Calcium" 0 15);
    ("vitamin_C", numericField "Vitamin C" 0 5);
    ("vitamin_A", numericField "Vitamin A" 0 120);
    ("vitamin_E", numericField "Vitamin E" 0 40);
    ("vitamin_B6", numericField "Vitamin B6" 0 80);
    ("homocysteine", numericField "Homocysteine" 0 100) ].

(** The input counts as "not measured". *)
Definition notMeasured (input : FieldInput) : Prop :=
  match input with
  | InNull | InUndefined => True
  | InString s => JsString.trim s = ""
  | InNumber _ => False
  end.

(** ** Route protection ([middleware.ts]) *)

Definition protectedRoutes : list string := ["/dashboard"; "/profile"; "/labs"].

(** The decoded session token; its content is not inspected. *)
Inductive JWT : Type := Jwt (sub : string).

Inductive MiddlewareResult : Type :=
| PassThrough
| RedirectTo (path : string) (callbackUrl : string).

Definition isProtected (pathname : string) : bool :=
  some (fun route => JsString.startsWith pathname route) protectedRoutes.

(** [token] is the result of [getToken]; the redirect goes to the path
    "/sign-in" of the request's origin, with the search parameter
    [callbackUrl]. *)
Definition middleware (pathname : string) (token : option JWT) : MiddlewareResult :=
  if negb (isProtected pathname) then PassThrough
  else
    match token with
    | None => RedirectTo "/sign-in" pathname
    | Some _ => PassThrough
    end.

(** ** Deleting a lab entry ([app/api/labs/[id]/route.ts]) *)








(** ** Report route ([app/api/report/route.ts]) *)

(** A parsed JSON value; the fields of an object are its own entries, in
    order, with pairwise distinct keys. *)
#[local] Unset Elimination Schemes.
Inductive Json : Type :=
| JNull
| JBool (b : bool)
| JNumber (n : number)
| JString (s : string)
| JArray (items : list Json)
| JObject (fields : list (string * Json)).
#[local] Set Elimination Schemes.

(** [value.key] for a key that is not built in; [None] is [undefined]. *)
Definition field (value : Json) (key : string) : option Json :=
  match value with
  | JObject fields => snd <$> List.find (fun kv => String.eqb (fst kv) key) fields
  | _ => None
  end.


(** [x ?? null]. *)
Definition orNull (x : option Json) : Json :=
  match x with
  | None | Some JNull => JNull
  | Some j => j
  end.

(** [Object.entries(labs)]. *)
Definition entriesOf (labs : Json) : list (string * Json) :=
  match labs with
  | JObject fields => fields
  | JArray items => imap (fun i item => (pretty i, item)) items
  | _ => []
  end.

(** The loop that fills [labData].  On the object literal [labData] the
    key [__proto__] is the accessor inherited from [Object.prototype]: the
    assignment [labData[key] = value] then calls its setter, which ignores
    a number, and no entry is made. *)
Definition numericEntries (entries : list (string * Json)) : gmap string number :=
  fold_left
    (fun (labData : gmap string number) entry =>
       match snd entry with
       | JNumber n =>
           if isNaN n then labData
           else if String.eqb (fst entry) "__proto__" then labData
           else <[fst entry := n]> labData
       | _ => labData
       end)
    entries ∅.

(** [entries] has the number [n], not NaN, under the key [k]. *)
Definition numericAt (entries : list (string * Json)) (k : string) (n : number) : Prop :=
  (k, JNumber n) ∈ entries /\ isNaN n = false.

Inductive DbValue : Type := DbText (s : string) | DbNumber (n : number).

(** [{ userId: session.user.id, ...labData }]: the spread comes last. *)
Definition entryData (userId : string) (labData : gmap string number) : gmap string DbValue :=
  (DbNumber <$> labData) ∪ {[ "userId" := DbText userId ]}.

Inductive ReportBody : Type :=
| ReportError (error : string) (details : option string)
| ReportJson (report : Json).

Record ReportHttp : Type := { report_body : ReportBody; report_status : nat }.

(** What the handler asks of the outside. *)
Inductive ReportEvent : Type :=
| Fetched (request : Json)
| CreateAttempt (data : gmap string DbValue).

Section ReportRoute.

(** The call to the recommendation service: whether the answer is [ok],
    and its text; the parser of the answer; the insertion of a row. *)
Variable fetchReport : Json -> Result (bool * string).
Variable parseJSON : string -> Result Json.
Variable createLabEntry : gmap string DbValue -> Result unit.

Definition internalError : ReportHttp :=
  {| report_body := ReportError "Internal error talking to report service" None;
     report_status := 500 |}.

(** The [try] block of [POST], for a signed-in user and a [labs] payload
    that is an object. *)
Definition forwardReport (userId : string) (labs patient diet_filter : Json)
    : ReportHttp * list ReportEvent :=
  let request :=
    JObject [("labs", labs); ("patient", patient); ("diet_filter", diet_filter)] in
  match fetchReport request with
  | Throw _ => (internalError, [Fetched request])
  | Ok (ok, backendText) =>
      if negb ok then
        ({| report_body := ReportError "Backend report service failed" (Some backendText);
            report_status := 502 |},
         [Fetched request])
      else
        match parseJSON backendText with
        | Throw _ => (internalError, [Fetched request])
        | Ok report =>
            let data := entryData userId (numericEntries (entriesOf labs)) in
            match createLabEntry data with
            | Throw _ => (internalError, [Fetched request; CreateAttempt data])
            | Ok _ =>
                ({| report_body := ReportJson report; report_status := 200 |},
                 [Fetched request; CreateAttempt data])
            end
        end
  end.

(** [session] is [session?.user], reduced to the user id; [body] is the
    outcome of [req.json()]. *)
Definition POST (session : option string) (body : Result Json)
    : ReportHttp * list ReportEvent :=
  match session with
  | None =>
      ({| report_body := ReportError "Unauthorized" None; report_status := 401 |}, [])
  | Some userId =>
      match body with
      | Throw _ =>
          ({| report_body := ReportError "Invalid JSON body" None; report_status := 400 |}, [])
      | Ok body =>
          let labs := field body "labs" in
          let patient := field body "patient" in
          let diet_filter := field body "diet_filter" in
          match labs with
          | Some (JObject fields) =>
              forwardReport userId (JObject fields) (orNull patient) (orNull diet_filter)
          | Some (JArray items) =>
              forwardReport userId (JArray items) (orNull patient) (orNull diet_filter)
          | _ =>
              ({| report_body := ReportError "Missing labs payload" None;
                  report_status := 400 |}, [])
          end
      end
  end.

End ReportRoute.

(** [s] begins with white space. *)
Definition startsWithWs (s : string) : bool :=
  match s with
  | String c _ => JsString.is_ws c
  | EmptyString => false
  end.

(** A string without white space. *)
Definition noWs (s : string) : Prop :=
  Forall (fun c => JsString.is_ws c = false) (chars s).

(** The number of edge ends at [k]. *)
Definition degreeAt (k : string) (edges : list CsvEdge) : nat :=
  sum_list (map (touches k) edges).

(** The largest relative error of one operation on doubles: 2^-53.  The
    finite values being idealised as rationals, a distance of this order
    is what separates a quotient or a sum of the model from the double
    that the source computes. *)
Definition roundoff : Q := 1 # 9007199254740992.

(** The labels of the flagged names in the panel:
    [name.replace(/_/g, " ")] for each name of [flagged], which is itself
    the key of the element. *)
Definition flaggedLabels (deficiencyNames highRiskNames : list string) : list string :=
  map JsString.replaceUnderscores (flagged deficiencyNames highRiskNames).

(** * Properties *)

Local Open Scope list_scope.

(** ** Numbers *)

Lemma Qlt_bool_iff (x y : Q) : Qlt_bool x y = true <-> (x < y)%Q.
Proof.
  unfold Qlt_bool. rewrite negb_true_iff, <- not_true_iff_false, Qle_bool_iff.
  split; [apply Qnot_le_lt | apply Qlt_not_le].
Qed.

Lemma num_lt_irrefl (x : number) : num_lt x x = false.
Proof.
  destruct x as [|[]|q]; simpl; try reflexivity.
  apply not_true_iff_false. rewrite Qlt_bool_iff. apply Qlt_irrefl.
Qed.

(** ** The reference table *)

Lemma REF_lookup_inv (marker : string) (r : Range) :
  REF !! marker = Some r ->
  exists l h : Q, r = range l h /\ (l < h)%Q.
Proof.
  intros Hr. apply elem_of_list_to_map_2 in Hr.
  repeat (apply elem_of_cons in Hr as [Hr | Hr];
          [ inversion Hr; subst; eexists _, _; split; [reflexivity | reflexivity] | ]).
  inversion Hr.
Qed.

(** ** The classifier *)

Section Classifier.



Lemma lookupREF_own (marker : string) (r : Range) :
  REF !! marker = Some r -> lookupREF marker = Some r.
Proof. intros Hr. unfold lookupREF. by rewrite Hr. Qed.




(** With a range, a number that is not [NaN] goes through the two
    comparisons, whatever it is. *)
Lemma classifyValue_compare (marker : string) (r : Range) (v : number) :
  REF !! marker = Some r -> isNaN v = false ->
  classifyValue marker (Some v) =
    if match low r with Some l => num_lt v l | None => false end then StLow
    else if match high r with Some h => num_gt v h | None => false end then StHigh
    else StNormal.
Proof.
  intros Hr Hv. unfold classifyValue.
  rewrite (lookupREF_own _ _ Hr), Hv. reflexivity.
Qed.


End Classifier.




(** C2: for every marker with a range and every finite value [v],
    [classifyValue] is "low" iff the low bound is defined and [v] is below
    it; otherwise "high" iff the high bound is defined and [v] is above it;
    otherwise "normal".  The bounds are inclusive: the value of either
    bound is "normal". *)
Theorem classifyValue_finite (marker : string) (r : Range) (q : Q) :
  REF !! marker = Some r ->
  let result := classifyValue marker (Some (Finite q)) in
  let below := exists l, low r = Some (Finite l) /\ (q < l)%Q in
  let above := exists h, high r = Some (Finite h) /\ (h < q)%Q in
  (result = StLow <-> below) /\
  (result = StHigh <-> ~ below /\ above) /\
  (result = StNormal <-> ~ below /\ ~ above) /\
  (forall l, low r = Some (Finite l) ->
     classifyValue marker (Some (Finite l)) = StNormal) /\
  (forall h, high r = Some (Finite h) ->
     classifyValue marker (Some (Finite h)) = StNormal).
Proof.
  intros Hr result below above.
  destruct (REF_lookup_inv _ _ Hr) as (l & h & -> & Hlh).
  assert (Hb : below <-> (q < l)%Q).
  { subst below; simpl. split.
    - intros (l' & [= <-] & H); exact H.
    - intros H; eauto. }
  assert (Ha : above <-> (h < q)%Q).
  { subst above; simpl. split.
    - intros (h' & [= <-] & H); exact H.
    - intros H; eauto. }
  assert (Hres : result =
            if Qlt_bool q l then StLow else if Qlt_bool h q then StHigh else StNormal).
  { subst result. by rewrite (classifyValue_compare _ _ _ Hr). }
  rewrite Hb, Ha, Hres. clear Hb Ha Hres result below above.
  assert (Hbound : forall b : Q, (b == l \/ b == h)%Q ->
            classifyValue marker (Some (Finite b)) = StNormal).
  { intros b Hbd. rewrite (classifyValue_compare _ _ _ Hr) by reflexivity. simpl.
    unfold num_gt; simpl.
    destruct (Qlt_bool b l) eqn:E1.
    { apply Qlt_bool_iff in E1. exfalso.
      destruct Hbd as [Hbd | Hbd]; rewrite Hbd in E1.
      - by apply Qlt_irrefl in E1.
      - eapply Qlt_irrefl, Qlt_trans; eauto. }
    destruct (Qlt_bool h b) eqn:E2; [|reflexivity].
    apply Qlt_bool_iff in E2. exfalso.
    destruct Hbd as [Hbd | Hbd]; rewrite Hbd in E2.
    - eapply Qlt_irrefl, Qlt_trans; eauto.
    - by apply Qlt_irrefl in E2. }
  split; [|split; [|split; [|split]]].
  4: { intros l' [= <-]. apply Hbound. left; reflexivity. }
  4: { intros h' [= <-]. apply Hbound. right; reflexivity. }
  all: pose proof (Qlt_bool_iff q l) as Hl; pose proof (Qlt_bool_iff h q) as Hh.
  all: destruct (Qlt_bool q l), (Qlt_bool h q).
  all: intuition (try discriminate; try congruence).
Qed.

Lemma classifyValue_finite_witness :
  classifyValue "Hemoglobin" (Some (Finite 10.0)) = StLow /\
  classifyValue "Hemoglobin" (Some (Finite 12.0)) = StNormal.
Proof.
  pose proof (classifyValue_finite "Hemoglobin" (range 12.0 16.0) 10.0 eq_refl)
    as (Hlow & _ & _ & Hl & _).
  split.
  - apply Hlow. exists 12.0%Q. split; reflexivity.
  - apply Hl. reflexivity.
Defined.

(** ** The schedule builder *)

Section Schedule.

Implicit Types (c : MarkerClassification) (cs : list MarkerClassification).

Lemma some_spec {A : Type} (p : A -> bool) (l : list A) :
  some p l = true <-> exists x, x ∈ l /\ p x = true.
Proof.
  unfold some. rewrite existsb_exists.
  split; intros (x & Hx & Hp); exists x; split; auto; by apply list_elem_of_In.
Qed.

Lemma isIronIssue_spec c :
  isIronIssue c = true <->
  (marker c = "Hemoglobin" \/ marker c = "ferritin" \/ marker c = "indicator_iron_serum") /\
  status c = StLow.
Proof.
  unfold isIronIssue.
  rewrite andb_true_iff, !orb_true_iff, !String.eqb_eq, bool_decide_eq_true. tauto.
Qed.

Lemma isBComplexIssue_spec c :
  isBComplexIssue c = true <->
  (marker c = "vitamin_B12" \/ marker c = "folate_plasma" \/ marker c = "vitamin_B6") /\
  (status c = StLow \/ status c = StHigh).
Proof.
  unfold isBComplexIssue.
  rewrite andb_true_iff, !orb_true_iff, !String.eqb_eq, !bool_decide_eq_true. tauto.
Qed.

Lemma isVitaminDIssue_spec c :
  isVitaminDIssue c = true <-> marker c = "vitamin_D" /\ status c <> StNormal.
Proof.
  unfold isVitaminDIssue.
  rewrite andb_true_iff, String.eqb_eq, negb_true_iff, bool_decide_eq_false. tauto.
Qed.

Lemma followUps_pos cs :
  (0 <? length (filter (fun c => status c <> StNormal) cs))%nat = true <->
  exists c, c ∈ cs /\ status c <> StNormal.
Proof.
  rewrite Nat.ltb_lt. split.
  - intros Hlen.
    destruct (filter (fun c => status c <> StNormal) cs) as [|c l] eqn:E;
      [simpl in Hlen; lia|].
    exists c. apply and_comm, (list_elem_of_filter (fun c => status c <> StNormal)).
    rewrite E. left.
  - intros (c & Hc & Hs).
    assert (Hin : c ∈ filter (fun c => status c <> StNormal) cs)
      by (apply list_elem_of_filter; auto).
    destruct (filter _ cs); [inversion Hin | simpl; lia].
Qed.

(** The three pushes, as one concatenation. *)
Lemma buildSchedule_unfold cs :
  buildSchedule cs =
    [lifestyleCheckIn;
     practitionerReview (length (filter (fun c => status c <> StNormal) cs))] ++
    (if some isIronIssue cs then [ironReevaluation] else []) ++
    (if some isBComplexIssue cs then [bVitaminFollowUp] else []) ++
    (if some isVitaminDIssue cs then [vitaminDMonitoring] else []).
Proof.
  unfold buildSchedule, push.
  destruct (some isIronIssue cs), (some isBComplexIssue cs), (some isVitaminDIssue cs);
    reflexivity.
Qed.

End Schedule.

(** C3: for every list of classification results, [buildSchedule] returns
    the lifestyle check-in item, then the practitioner review item, whose
    timeframe is "Within 2 weeks" iff some result has a status other than
    normal and "Within 6 months" otherwise, then one item per true flag in
    the order iron, B-complex, vitamin D.  The iron flag holds iff one of
    Hemoglobin, ferritin, indicator_iron_serum is low; the B-complex flag
    iff one of vitamin_B12, folate_plasma, vitamin_B6 is low or high; the
    vitamin-D flag iff vitamin_D has a status other than normal.  So the
    schedule has 2 plus the number of true flags items, between 2 and 5,
    and no two items share a title. *)
Theorem buildSchedule_items (cs : list MarkerClassification) :
  exists (review : ScheduleItem) (iron bcomplex vitd : bool),
    buildSchedule cs =
      [lifestyleCheckIn; review] ++
      (if iron then [ironReevaluation] else []) ++
      (if bcomplex then [bVitaminFollowUp] else []) ++
      (if vitd then [vitaminDMonitoring] else []) /\
    title lifestyleCheckIn = "Lifestyle Check-in" /\
    title review = "Practitioner Review" /\
    (timeframe review = "Within 2 weeks" <->
       exists c, c ∈ cs /\ status c <> StNormal) /\
    (timeframe review = "Within 6 months" <->
       ~ exists c, c ∈ cs /\ status c <> StNormal) /\
    (iron = true <->
       exists c, c ∈ cs /\
         (marker c = "Hemoglobin" \/ marker c = "ferritin" \/
          marker c = "indicator_iron_serum") /\
         status c = StLow) /\
    (bcomplex = true <->
       exists c, c ∈ cs /\
         (marker c = "vitamin_B12" \/ marker c = "folate_plasma" \/
          marker c = "vitamin_B6") /\
         (status c = StLow \/ status c = StHigh)) /\
    (vitd = true <->
       exists c, c ∈ cs /\ marker c = "vitamin_D" /\ status c <> StNormal) /\
    length (buildSchedule cs) =
      2 + (Nat.b2n iron + Nat.b2n bcomplex + Nat.b2n vitd) /\
    2 <= length (buildSchedule cs) <= 5 /\
    NoDup (map title (buildSchedule cs)).
Proof.
  exists (practitionerReview (length (filter (fun c => status c <> StNormal) cs))),
         (some isIronIssue cs), (some isBComplexIssue cs), (some isVitaminDIssue cs).
  rewrite buildSchedule_unfold.
  split; [reflexivity|]. split; [reflexivity|]. split; [reflexivity|].
  pose proof (followUps_pos cs) as Hf.
  split; [|split].
  - rewrite <- Hf. unfold practitionerReview; simpl.
    destruct (0 <? _)%nat; split; (reflexivity || discriminate).
  - rewrite <- Hf. unfold practitionerReview; simpl.
    destruct (0 <? _)%nat; split; try reflexivity; try discriminate; intros H; by destruct H.
  - split; [|split; [|split]].
    + rewrite some_spec. by setoid_rewrite isIronIssue_spec.
    + rewrite some_spec. by setoid_rewrite isBComplexIssue_spec.
    + rewrite some_spec. by setoid_rewrite isVitaminDIssue_spec.
    + destruct (some isIronIssue cs), (some isBComplexIssue cs), (some isVitaminDIssue cs);
        (split; [reflexivity|]); (split; [simpl; lia|]);
        apply (bool_decide_unpack _); vm_compute; reflexivity.
Qed.

(** ** Notes of the recommendations *)

Lemma classifyEntry_fields (m : string) (v : option number) :
  marker (classifyEntry (m, v)) = m /\
  value (classifyEntry (m, v)) = v /\
  status (classifyEntry (m, v)) = classifyValue m v.
Proof. repeat split. Qed.

Lemma classifyEntry_note (m : string) (v : option number) :
  note (classifyEntry (m, v)) =
    match lookupNote m (classifyValue m v) with
    | Some n => n
    | None =>
        match classifyValue m v with
        | StNormal => NOTE_NORMAL
        | _ => NOTE_NO_REFERENCE
        end
    end.
Proof.
  simpl. destruct (lookupNote _ _); [reflexivity|].
  destruct (classifyValue m v); reflexivity.
Qed.

(** C10: in [buildRecommendations], a submitted marker whose status is not
    "normal" and for which [NOTES] has no note under that status gets the
    note "No reference available for this marker.".  This happens for a
    marker that does have a reference range: magnesium, classified "low"
    against its range, gets that note. *)
Theorem buildRecommendations_note_without_entry
    (values : list (string * option number)) (i : nat)
    (m : string) (v : option number) :
  values !! i = Some (m, v) ->
  classifyValue m v <> StNormal ->
  lookupNote m (classifyValue m v) = None ->
  markers (buildRecommendations values) !! i =
    Some {| marker := m; value := v; status := classifyValue m v;
            note := "No reference available for this marker." |} /\
  is_Some (REF !! "magnesium") /\
  markers (buildRecommendations [("magnesium", Some (Finite 1.0))]) =
    [ {| marker := "magnesium"; value := Some (Finite 1.0); status := StLow;
         note := "No reference available for this marker." |} ].
Proof.
  intros Hi Hst Hnote. split; [|split].
  - unfold buildRecommendations; simpl.
    rewrite list_lookup_fmap, Hi; simpl. f_equal.
    pose proof (classifyEntry_note m v) as Hn. simpl in Hn.
    rewrite Hnote in *.
    rewrite bool_decide_eq_false_2 by exact Hst. reflexivity.
  - eexists. reflexivity.
  - reflexivity.
Qed.

Lemma buildRecommendations_note_without_entry_witness :
  markers (buildRecommendations
             [("Hemoglobin", Some (Finite 13.0)); ("zinc", Some (Finite 200))]) !! 1%nat =
    Some {| marker := "zinc"; value := Some (Finite 200); status := StHigh;
            note := "No reference available for this marker." |}.
Proof.
  apply (buildRecommendations_note_without_entry
           [("Hemoglobin", Some (Finite 13.0)); ("zinc", Some (Finite 200))]
           1 "zinc" (Some (Finite 200))).
  - reflexivity.
  - vm_compute. discriminate.
  - reflexivity.
Defined.

(** ** Strings *)

Section StringFacts.

Import JsString.

Lemma is_ws_lower_char (c : ascii) : is_ws (lower_char c) = is_ws c.
Proof. destruct c as [[] [] [] [] [] [] [] []]; reflexivity. Qed.

Lemma toLowerCase_trimStart (s : string) :
  toLowerCase (trimStart s) = trimStart (toLowerCase s).
Proof.
  induction s as [|c s IH]; simpl; [reflexivity|].
  rewrite is_ws_lower_char. destruct (is_ws c); [exact IH | reflexivity].
Qed.

Lemma toLowerCase_trimEnd (s : string) :
  toLowerCase (trimEnd s) = trimEnd (toLowerCase s).
Proof.
  induction s as [|c s IH]; simpl; [reflexivity|].
  rewrite <- IH, is_ws_lower_char.
  destruct (trimEnd s); simpl; [destruct (is_ws c)|]; reflexivity.
Qed.

Lemma toLowerCase_trim (s : string) : toLowerCase (trim s) = trim (toLowerCase s).
Proof. unfold trim. by rewrite toLowerCase_trimEnd, toLowerCase_trimStart. Qed.

End StringFacts.

(** ** Strength of a confidence label *)

Lemma confidenceToNumber_case (a b : string) :
  JsString.toLowerCase a = JsString.toLowerCase b ->
  confidenceToNumber a = confidenceToNumber b.
Proof.
  intros H. unfold confidenceToNumber. by rewrite !toLowerCase_trim, H.
Qed.

Lemma confidenceToNumber_range (conf : string) :
  (0 <= confidenceToNumber conf <= 1)%Q.
Proof.
  unfold confidenceToNumber.
  repeat match goal with |- context [if ?b then _ else _] => destruct b end;
    split; discriminate.
Qed.

(** ** The node accumulator *)

Section NodeSetFacts.

Implicit Types (m : NodeSet) (k : string) (v : NodeAcc) (f : NodeAcc -> NodeAcc).

Lemma has_get m k : has m k = true <-> is_Some (get m k).
Proof.
  induction m as [|[k' v'] m IH]; simpl.
  - split; [discriminate | intros [? [=]]].
  - destruct (String.eqb k' k); simpl; [|exact IH].
    split; eauto.
Qed.

Lemma has_false_get m k : has m k = false -> get m k = None.
Proof. intros Hh. apply eq_None_not_Some. rewrite <- has_get. by rewrite Hh. Qed.

Lemma get_keys m k : is_Some (get m k) <-> k ∈ keys m.
Proof.
  induction m as [|[k' v'] m IH]; simpl.
  - split; [intros [? [=]] | inversion 1].
  - rewrite elem_of_cons. destruct (String.eqb_spec k' k) as [->|Hne].
    + split; eauto.
    + rewrite IH. split; [auto | intros [->|?]; [done | auto]].
Qed.

Lemma get_None_keys m k : get m k = None <-> k ∉ keys m.
Proof. rewrite <- get_keys, eq_None_not_Some. reflexivity. Qed.

Lemma set_fresh m k v : get m k = None -> set m k v = m ++ [(k, v)].
Proof.
  induction m as [|[k' v'] m IH]; simpl; [reflexivity|].
  destruct (String.eqb k' k); [discriminate|].
  intros H. by rewrite IH.
Qed.

Lemma keys_set_present m k v : is_Some (get m k) -> keys (set m k v) = keys m.
Proof.
  induction m as [|[k' v'] m IH]; simpl.
  - intros [? [=]].
  - destruct (String.eqb k' k); [reflexivity|].
    intros H. simpl. f_equal. by apply IH.
Qed.

Lemma get_set m k k' v :
  get (set m k v) k' = if String.eqb k k' then Some v else get m k'.
Proof.
  induction m as [|[k0 v0] m IH]; simpl.
  - reflexivity.
  - destruct (String.eqb_spec k0 k) as [->|Hne]; simpl.
    + destruct (String.eqb k k'); reflexivity.
    + destruct (String.eqb_spec k0 k') as [->|Hne'].
      * destruct (String.eqb_spec k k'); [congruence | reflexivity].
      * exact IH.
Qed.

Lemma sumDegrees_app m m' : sumDegrees (m ++ m') = sumDegrees m + sumDegrees m'.
Proof.
  induction m as [|kv m IH]; [reflexivity|].
  unfold sumDegrees in *; simpl. rewrite IH. lia.
Qed.

Lemma sumDegrees_set m k v v0 :
  get m k = Some v0 -> sumDegrees (set m k v) + degree v0 = sumDegrees m + degree v.
Proof.
  induction m as [|[k' v'] m IH]; simpl; [discriminate|].
  destruct (String.eqb k' k).
  - intros [= ->]. unfold sumDegrees; simpl. lia.
  - intros H. apply IH in H. unfold sumDegrees in *; simpl. lia.
Qed.

(** *** [ensure] *)

Lemma get_ensure m k k' :
  get (ensure m k) k' =
    match get m k' with
    | Some v => Some v
    | None => if String.eqb k k' then Some (freshAcc k) else None
    end.
Proof.
  unfold ensure. destruct (has m k) eqn:Hh.
  - apply has_get in Hh as [v Hv].
    destruct (String.eqb_spec k k') as [<-|Hne].
    + by rewrite Hv.
    + by destruct (get m k').
  - rewrite get_set. destruct (String.eqb_spec k k') as [<-|Hne].
    + by rewrite (has_false_get _ _ Hh).
    + by destruct (get m k').
Qed.

Lemma keys_ensure m k :
  keys (ensure m k) = if has m k then keys m else keys m ++ [k].
Proof.
  unfold ensure. destruct (has m k) eqn:Hh; [reflexivity|].
  rewrite set_fresh by by apply has_false_get.
  unfold keys. by rewrite map_app.
Qed.

Lemma sumDegrees_ensure m k : sumDegrees (ensure m k) = sumDegrees m.
Proof.
  unfold ensure. destruct (has m k) eqn:Hh; [reflexivity|].
  rewrite set_fresh by by apply has_false_get.
  rewrite sumDegrees_app. unfold sumDegrees; simpl. lia.
Qed.

(** *** [mutate] *)

Lemma mutate_alterAcc m k (field : string) f :
  is_Some (get m k) -> mutate m k field f = Ok (alterAcc f k m).
Proof. intros [v Hv]. unfold mutate, alterAcc. by rewrite Hv. Qed.

Lemma keys_alterAcc f k m : keys (alterAcc f k m) = keys m.
Proof.
  unfold alterAcc. destruct (get m k) eqn:E; [|reflexivity].
  apply keys_set_present. by rewrite E.
Qed.

Lemma get_alterAcc f k m k' :
  get (alterAcc f k m) k' = if String.eqb k k' then f <$> get m k' else get m k'.
Proof.
  unfold alterAcc. destruct (get m k) eqn:E.
  - rewrite get_set. destruct (String.eqb_spec k k') as [<-|Hne]; [|reflexivity].
    by rewrite E.
  - destruct (String.eqb_spec k k') as [<-|Hne]; [|reflexivity].
    by rewrite E.
Qed.

Lemma sumDegrees_incrDegree k m :
  is_Some (get m k) -> sumDegrees (alterAcc incrDegree k m) = sumDegrees m + 1.
Proof.
  intros [v Hv]. unfold alterAcc. rewrite Hv.
  pose proof (sumDegrees_set m k (incrDegree v) v Hv) as H. simpl in H. lia.
Qed.

Lemma sumDegrees_pushConfidence c k m :
  sumDegrees (alterAcc (pushConfidence c) k m) = sumDegrees m.
Proof.
  unfold alterAcc. destruct (get m k) as [v|] eqn:Hv; [|reflexivity].
  pose proof (sumDegrees_set m k (pushConfidence c v) v Hv) as H. simpl in H. lia.
Qed.

End NodeSetFacts.

(** ** The visit of the edges *)

Section Visit.

Implicit Types (m : NodeSet) (k : string) (e : CsvEdge) (es : list CsvEdge).

Lemma elem_of_keys_ensure m k k' : k' ∈ keys (ensure m k) <-> k' ∈ keys m \/ k' = k.
Proof.
  rewrite keys_ensure. destruct (has m k) eqn:Hh.
  - split; [auto|]. intros [?| ->]; [done|].
    by apply get_keys, has_get.
  - rewrite elem_of_app, list_elem_of_singleton. reflexivity.
Qed.

Lemma NoDup_keys_ensure m k : NoDup (keys m) -> NoDup (keys (ensure m k)).
Proof.
  intros Hnd. rewrite keys_ensure. destruct (has m k) eqn:Hh; [done|].
  apply NoDup_app. split; [done|]. split; [|apply NoDup_singleton].
  intros x Hx ->%list_elem_of_singleton.
  apply get_keys, has_get in Hx. congruence.
Qed.

Lemma bump_chain (b1 b2 : bool) (c : Q) (a : NodeAcc) :
  (if b2 then pushConfidence c else fun n => n)
    ((if b1 then pushConfidence c else fun n => n)
       ((if b2 then incrDegree else fun n => n)
          ((if b1 then incrDegree else fun n => n) a))) =
  bump (Nat.b2n b1 + Nat.b2n b2) c a.
Proof.
  destruct a as [i d cs], b1, b2; unfold bump, pushConfidence, incrDegree, push; simpl;
    f_equal; try lia; by rewrite <- ?app_assoc, ?app_nil_r.
Qed.

(** One edge: the visit does not throw, records the link of the edge, and
    bumps the entries of the two ends. *)
Lemma visitEdge_ok m e :
  exists m',
    visitEdge m e = Ok (m', linkOf e) /\
    keys m' = keys (ensure (ensure m (source e)) (target e)) /\
    (forall k, get m' k =
       bump (touches k e) (confidenceToNumber (confidence e)) <$>
         get (ensure (ensure m (source e)) (target e)) k) /\
    sumDegrees m' = sumDegrees m + 2.
Proof.
  set (c := confidenceToNumber (confidence e)).
  set (m2 := ensure (ensure m (source e)) (target e)).
  assert (Hs : source e ∈ keys m2).
  { apply elem_of_keys_ensure. left. apply elem_of_keys_ensure. by right. }
  assert (Ht : target e ∈ keys m2).
  { apply elem_of_keys_ensure. by right. }
  set (m3 := alterAcc incrDegree (source e) m2).
  set (m4 := alterAcc incrDegree (target e) m3).
  set (m5 := alterAcc (pushConfidence c) (source e) m4).
  set (m6 := alterAcc (pushConfidence c) (target e) m5).
  assert (K3 : keys m3 = keys m2) by apply keys_alterAcc.
  assert (K4 : keys m4 = keys m2) by (unfold m4; by rewrite keys_alterAcc).
  assert (K5 : keys m5 = keys m2) by (unfold m5; by rewrite keys_alterAcc).
  assert (K6 : keys m6 = keys m2) by (unfold m6; by rewrite keys_alterAcc).
  exists m6. split; [|split; [|split]].
  - unfold visitEdge. fold c. fold m2.
    rewrite (mutate_alterAcc m2) by by apply get_keys. simpl. fold m3.
    rewrite (mutate_alterAcc m3) by (apply get_keys; by rewrite K3). simpl. fold m4.
    rewrite (mutate_alterAcc m4) by (apply get_keys; by rewrite K4). simpl. fold m5.
    rewrite (mutate_alterAcc m5) by (apply get_keys; by rewrite K5). simpl.
    reflexivity.
  - exact K6.
  - intros k. unfold m6, m5, m4, m3. rewrite !get_alterAcc. unfold touches. fold c.
    destruct (get m2 k) as [a|]; simpl.
    + rewrite <- bump_chain.
      by destruct (String.eqb (source e) k), (String.eqb (target e) k).
    + by destruct (String.eqb (source e) k), (String.eqb (target e) k).
  - unfold m6, m5. rewrite !sumDegrees_pushConfidence.
    unfold m4. rewrite sumDegrees_incrDegree by (apply get_keys; by rewrite K3).
    unfold m3. rewrite sumDegrees_incrDegree by by apply get_keys.
    unfold m2. rewrite !sumDegrees_ensure. lia.
Qed.

Lemma endpoints_snoc es e : endpoints (es ++ [e]) = endpoints es ++ [source e; target e].
Proof. unfold endpoints. rewrite flat_map_app. simpl. reflexivity. Qed.

Lemma strengthsAt_snoc k es e :
  strengthsAt k (es ++ [e]) =
  strengthsAt k es ++ replicate (touches k e) (confidenceToNumber (confidence e)).
Proof. unfold strengthsAt. rewrite flat_map_app. simpl. by rewrite app_nil_r. Qed.

Lemma strengthsAt_not_endpoint k es : k ∉ endpoints es -> strengthsAt k es = [].
Proof.
  induction es as [|e es IH]; simpl; [reflexivity|].
  rewrite !not_elem_of_cons. intros (Hs & Ht & Hes).
  unfold touches.
  rewrite (proj2 (String.eqb_neq _ _)) by congruence.
  rewrite (proj2 (String.eqb_neq _ _)) by congruence.
  simpl. by apply IH.
Qed.

Lemma bump_accOf k es e :
  bump (touches k e) (confidenceToNumber (confidence e)) (accOf k es) =
  accOf k (es ++ [e]).
Proof.
  unfold bump, accOf; simpl. rewrite strengthsAt_snoc.
  f_equal. by rewrite length_app, length_replicate.
Qed.

Lemma consistent_nil : consistent [] [].
Proof.
  split; [constructor|]. split; [reflexivity|]. intros k v [=].
Qed.

Lemma consistent_step m es e :
  consistent m es ->
  exists m',
    visitEdge m e = Ok (m', linkOf e) /\
    consistent m' (es ++ [e]) /\
    sumDegrees m' = sumDegrees m + 2.
Proof.
  intros (Hnd & Hkeys & Hget).
  destruct (visitEdge_ok m e) as (m' & Hv & Hk & Hg & Hsum).
  exists m'. split; [done|]. split; [|done].
  split; [|split].
  - rewrite Hk. by do 2 apply NoDup_keys_ensure.
  - intros k. rewrite Hk, !elem_of_keys_ensure, endpoints_snoc, elem_of_app, Hkeys.
    rewrite elem_of_cons, list_elem_of_singleton. tauto.
  - intros k v. rewrite Hg, !get_ensure.
    assert (Hfresh : get m k = None -> freshAcc k = accOf k es).
    { intros Hn. unfold accOf. rewrite strengthsAt_not_endpoint; [reflexivity|].
      rewrite <- Hkeys. by apply get_None_keys. }
    destruct (get m k) as [a|] eqn:Ha; simpl.
    + intros [= <-]. rewrite (Hget _ _ Ha). apply bump_accOf.
    + destruct (String.eqb_spec (source e) k) as [->|Hs]; simpl.
      { intros [= <-]. rewrite Hfresh by done. apply bump_accOf. }
      destruct (String.eqb_spec (target e) k) as [->|Ht]; simpl.
      { intros [= <-]. rewrite Hfresh by done. apply bump_accOf. }
      discriminate.
Qed.

(** All the edges: [visitEdges] returns, with one link per edge in order. *)
Lemma visitEdges_ok edges : forall m links es,
  consistent m es ->
  exists m',
    visitEdges m links edges = Ok (m', links ++ map linkOf edges) /\
    consistent m' (es ++ edges) /\
    sumDegrees m' = sumDegrees m + 2 * length edges.
Proof.
  induction edges as [|e edges IH]; intros m links es Hc; simpl.
  - exists m. rewrite !app_nil_r. split; [done|]. split; [done|lia].
  - destruct (consistent_step m es e Hc) as (m1 & Hv & Hc1 & Hs1).
    rewrite Hv; simpl.
    destruct (IH m1 (push links (linkOf e)) (es ++ [e]) Hc1) as (m' & Hvs & Hc' & Hs').
    exists m'. unfold push in Hvs. rewrite <- !app_assoc in *. simpl in *.
    split; [done|]. split; [done|lia].
Qed.

End Visit.

(** ** The derived nodes *)

Section Nodes.

Implicit Types (m : NodeSet) (k : string) (v : NodeAcc).

Lemma get_elem_of m k v : get m k = Some v -> (k, v) ∈ m.
Proof.
  induction m as [|[k' v'] m IH]; simpl; [discriminate|].
  destruct (String.eqb_spec k' k) as [->|Hne].
  - intros [= ->]. left.
  - intros H. right. by apply IH.
Qed.

Lemma elem_of_get m k v : NoDup (keys m) -> (k, v) ∈ m -> get m k = Some v.
Proof.
  induction m as [|[k' v'] m IH]; simpl; [inversion 2|].
  intros [Hnotin Hnd]%NoDup_cons [[= -> ->] | Hin]%elem_of_cons.
  - by rewrite String.eqb_refl.
  - destruct (String.eqb_spec k' k) as [->|Hne]; [|by apply IH].
    exfalso. apply Hnotin. apply (list_elem_of_fmap_2 fst) in Hin. exact Hin.
Qed.

Lemma fold_max_ge_init (l : list nat) (a : nat) : a <= fold_left Nat.max l a.
Proof.
  revert a. induction l as [|x l IH]; intros a; simpl; [lia|].
  specialize (IH (Nat.max a x)). lia.
Qed.

Lemma fold_max_ge_elem (l : list nat) (a x : nat) : x ∈ l -> x <= fold_left Nat.max l a.
Proof.
  revert a. induction l as [|y l IH]; intros a; [inversion 1|].
  intros [->|Hin]%elem_of_cons; simpl.
  - pose proof (fold_max_ge_init l (Nat.max a y)). lia.
  - by apply IH.
Qed.

Lemma maxDegree_pos m : 1 <= maxDegree m.
Proof. apply fold_max_ge_init. Qed.

Lemma degree_le_maxDegree m k v : (k, v) ∈ m -> degree v <= maxDegree m.
Proof.
  intros Hin. apply fold_max_ge_elem.
  apply (list_elem_of_fmap_2 (fun kv => degree (snd kv))) in Hin. exact Hin.
Qed.

Lemma ofNat_le (a b : nat) : a <= b -> (ofNat a <= ofNat b)%Q.
Proof. intros H. unfold ofNat. rewrite <- Zle_Qle. lia. Qed.

Lemma ofNat_pos (a : nat) : 1 <= a -> (0 < ofNat a)%Q.
Proof. intros H. unfold ofNat. change 0%Q with (inject_Z 0). rewrite <- Zlt_Qlt. lia. Qed.

Lemma ofNat_S (a : nat) : (ofNat (S a) == ofNat a + 1)%Q.
Proof.
  unfold ofNat. rewrite Nat2Z.inj_succ. unfold Z.succ.
  rewrite inject_Z_plus. reflexivity.
Qed.

(** A quotient of natural numbers [a <= b], [b] positive, lies in [0,1]. *)
Lemma ratio_unit (a b : nat) : a <= b -> 1 <= b -> (0 <= ofNat a / ofNat b <= 1)%Q.
Proof.
  intros Hab Hb. pose proof (ofNat_pos b Hb) as Hpos. split.
  - apply Qle_shift_div_l; [done|]. rewrite Qmult_0_l. by apply (ofNat_le 0), Nat.le_0_l.
  - apply Qle_shift_div_r; [done|]. rewrite Qmult_1_l. by apply ofNat_le.
Qed.

Lemma fold_sum_bounds (l : list Q) : forall (a : Q) (n : nat),
  Forall unit_interval l ->
  (0 <= a <= ofNat n)%Q ->
  (0 <= fold_left Qplus l a <= ofNat (n + length l))%Q.
Proof.
  induction l as [|x l IH]; intros a n Hl [Ha0 Han]; simpl.
  - by rewrite Nat.add_0_r.
  - apply Forall_cons in Hl as [[Hx0 Hx1] Hl].
    replace (n + S (length l)) with (S n + length l) by lia.
    apply IH; [done|]. split.
    + replace 0%Q with (0 + 0)%Q by reflexivity. by apply Qplus_le_compat.
    + rewrite ofNat_S. by apply Qplus_le_compat.
Qed.

(** The mean of numbers of [0,1], computed as in [makeNode]. *)
Lemma mean_unit (l : list Q) :
  Forall unit_interval l -> l <> [] ->
  (0 <= sumQ l / ofNat (length l) <= 1)%Q.
Proof.
  intros Hl Hne.
  assert (Hlen : 1 <= length l) by (destruct l; [done | simpl; lia]).
  pose proof (ofNat_pos _ Hlen) as Hpos.
  destruct (fold_sum_bounds l 0%Q 0 Hl) as [H0 H1]; [split; apply Qle_refl|].
  simpl in H1. split.
  - apply Qle_shift_div_l; [done|]. by rewrite Qmult_0_l.
  - apply Qle_shift_div_r; [done|]. by rewrite Qmult_1_l.
Qed.

Lemma strengthsAt_unit k (es : list CsvEdge) : Forall unit_interval (strengthsAt k es).
Proof.
  unfold strengthsAt. induction es as [|e es IH]; simpl; [constructor|].
  apply Forall_app. split; [|done].
  apply Forall_replicate. apply confidenceToNumber_range.
Qed.

Lemma length_strengthsAt k (es : list CsvEdge) :
  length (strengthsAt k es) = sum_list (map (touches k) es).
Proof.
  unfold strengthsAt. induction es as [|e es IH]; simpl; [reflexivity|].
  by rewrite length_app, length_replicate, IH.
Qed.

Lemma makeNode_confidence_unit (M : nat) k (es : list CsvEdge) :
  unit_interval (node_confidence (makeNode M (accOf k es))).
Proof.
  unfold makeNode; simpl.
  destruct (strengthsAt k es) as [|c l] eqn:E.
  - simpl. split; discriminate.
  - rewrite <- E. destruct (length (strengthsAt k es) =? 0)%nat eqn:El.
    + split; discriminate.
    + apply mean_unit; [apply strengthsAt_unit | by rewrite E].
Qed.

Lemma buildNodes_ids m (es : list CsvEdge) :
  consistent m es -> map id (buildNodes m) = keys m.
Proof.
  intros (Hnd & _ & Hget). unfold buildNodes, keys.
  rewrite map_map. apply map_ext_in. intros [k v] Hin. simpl.
  apply list_elem_of_In, (elem_of_get m k v Hnd), Hget in Hin. by subst v.
Qed.

End Nodes.

(** ** Strength and confidence *)

Lemma node_of_endpoint (m : NodeSet) (es : list CsvEdge) (k : string) :
  consistent m es -> k ∈ endpoints es ->
  makeNode (maxDegree m) (accOf k es) ∈ buildNodes m.
Proof.
  intros (Hnd & Hkeys & Hget) Hk.
  apply Hkeys, get_keys in Hk as [v Hv].
  pose proof (Hget _ _ Hv) as ->.
  apply get_elem_of in Hv. unfold buildNodes.
  apply (list_elem_of_fmap_2 (fun kv => makeNode (maxDegree m) (snd kv))) in Hv.
  exact Hv.
Qed.

Lemma visitEdges_consistent (edges : list CsvEdge) (nodeSet : NodeSet) (links : list Link) :
  visitEdges [] [] edges = Ok (nodeSet, links) ->
  consistent nodeSet edges /\ links = map linkOf edges.
Proof.
  intros Hv.
  destruct (visitEdges_ok edges [] [] [] consistent_nil) as (m & Hv' & Hc & _).
  rewrite Hv in Hv'. injection Hv' as -> ->. done.
Qed.

(** C7: the strength of a confidence label is decided on the trimmed,
    lower-cased label by substring tests in this order: "high" and
    "moderate" together (0.75) before "high" alone (0.9); "moderate" and
    "low" together (0.45) before "moderate" alone (0.6); then "low" (0.3);
    a label with none of the words gets 0.5.  Labels that differ by letter
    case only get the same strength.  "High" gives 0.9 and "Low" gives 0.3,
    and a node whose edge ends carry exactly these two strengths has
    confidence (0.9 + 0.3) / 2 = 0.6. *)
Theorem confidenceToNumber_rules (conf : string) :
  let c := JsString.toLowerCase (JsString.trim conf) in
  let has w := JsString.includes c w = true in
  (has "high" /\ has "moderate" -> confidenceToNumber conf = 0.75%Q) /\
  (has "high" /\ ~ has "moderate" -> confidenceToNumber conf = 0.9%Q) /\
  (~ has "high" /\ has "moderate" /\ has "low" -> confidenceToNumber conf = 0.45%Q) /\
  (~ has "high" /\ has "moderate" /\ ~ has "low" -> confidenceToNumber conf = 0.6%Q) /\
  (~ has "high" /\ ~ has "moderate" /\ has "low" -> confidenceToNumber conf = 0.3%Q) /\
  (~ has "high" /\ ~ has "moderate" /\ ~ has "low" -> confidenceToNumber conf = 0.5%Q) /\
  (forall conf', JsString.toLowerCase conf' = JsString.toLowerCase conf ->
     confidenceToNumber conf' = confidenceToNumber conf) /\
  confidenceToNumber "High" = 0.9%Q /\
  confidenceToNumber "Low" = 0.3%Q /\
  (forall (edges : list CsvEdge) (nodeSet : NodeSet) (links : list Link) (k : string),
     visitEdges [] [] edges = Ok (nodeSet, links) ->
     strengthsAt k edges ≡ₚ [confidenceToNumber "High"; confidenceToNumber "Low"] ->
     exists n, n ∈ buildNodes nodeSet /\ id n = k /\
       (node_confidence n == (0.9 + 0.3) / 2)%Q /\ (node_confidence n == 0.6)%Q).
Proof.
  intros c has.
  assert (Hrules :
    confidenceToNumber conf =
      if JsString.includes c "high" && JsString.includes c "moderate" then 0.75%Q
      else if JsString.includes c "high" then 0.9%Q
      else if JsString.includes c "moderate" && JsString.includes c "low" then 0.45%Q
      else if JsString.includes c "moderate" then 0.6%Q
      else if JsString.includes c "low" then 0.3%Q
      else 0.5%Q) by reflexivity.
  subst has. simpl.
  do 6 (split;
    [ rewrite Hrules;
      destruct (JsString.includes c "high"), (JsString.includes c "moderate"),
        (JsString.includes c "low"); simpl;
      intuition (try discriminate; try congruence) |]).
  split; [intros conf' H; by apply confidenceToNumber_case|].
  split; [reflexivity|]. split; [reflexivity|].
  intros edges nodeSet links k Hv Hperm.
  apply visitEdges_consistent in Hv as [Hc _].
  assert (Hk : k ∈ endpoints edges).
  { destruct (decide (k ∈ endpoints edges)) as [|Hn]; [done|].
    apply strengthsAt_not_endpoint in Hn. rewrite Hn in Hperm.
    by apply Permutation_nil_cons in Hperm. }
  exists (makeNode (maxDegree nodeSet) (accOf k edges)).
  split; [by apply node_of_endpoint|]. split; [reflexivity|].
  unfold makeNode; simpl.
  symmetry in Hperm. apply Permutation_length_2_inv in Hperm as [-> | ->];
    split; reflexivity.
Qed.

Lemma confidenceToNumber_rules_witness :
  confidenceToNumber " Moderate-High " = 0.75%Q /\
  exists (nodeSet : NodeSet) (links : list Link) (n : Node),
    visitEdges [] [] ironHighLow = Ok (nodeSet, links) /\
    n ∈ buildNodes nodeSet /\ id n = "iron" /\ (node_confidence n == 0.6)%Q.
Proof.
  split.
  - apply (confidenceToNumber_rules " Moderate-High "). split; reflexivity.
  - destruct (confidenceToNumber_rules "High")
      as (_ & _ & _ & _ & _ & _ & _ & _ & _ & H).
    eexists _, _.
    destruct (H ironHighLow _ _ "iron" eq_refl (Permutation_refl _))
      as (n & Hn & Hid & _ & Hc).
    exists n. split; [reflexivity|]. split; [exact Hn|]. split; [exact Hid | exact Hc].
Defined.

(** ** Risk of a node *)

(** C8 (the code departs from it): the risk of a node is meant to be 1.0
    when the lower-cased identifier contains "anemia".  The handler tests
    the identifier as parsed: for the row [Anemia,iron,inhibits,High,x] the
    node "Anemia" is typed as a marker, by a test on the lower-cased
    identifier, and gets risk 0.5. *)
Theorem risk_tests_identifier_as_parsed :
  exists (nodes : list Node) (links : list Link) (n : Node),
    GET (Ok "source,target,effect,confidence,notes
Anemia,iron,inhibits,High,x") =
      {| body := GraphBody nodes links; http_status := 200 |} /\
    n ∈ nodes /\
    id n = "Anemia" /\
    JsString.includes (JsString.toLowerCase (id n)) "anemia" = true /\
    type n = Marker /\
    risk n = 0.5%Q.
Proof.
  eexists _, _, _. split; [vm_compute; reflexivity|].
  split; [left|]. repeat split.
Qed.

(** ** The handler and the empty table *)

Section Handler.

Lemma nonBlank_not_empty (l : string) : nonBlank l = true -> l <> "".
Proof. intros H ->. discriminate H. Qed.

Lemma readLines_nonBlank (raw l : string) : l ∈ readLines raw -> nonBlank l = true.
Proof.
  unfold readLines. rewrite list_elem_of_In, filter_In. by intros [_ H].
Qed.

Lemma header_not_falsy (raw header : string) (rest : list string) :
  readLines raw = header :: rest -> falsy (Some header) = false.
Proof.
  intros H. simpl. apply String.eqb_neq, nonBlank_not_empty.
  apply (readLines_nonBlank raw). rewrite H. left.
Qed.

(** With a header line the handler answers 200 with the graph of the
    remaining lines. *)
Lemma GET_graph (raw header : string) (rest : list string) :
  readLines raw = header :: rest ->
  exists nodeSet,
    visitEdges [] [] (parseEdges rest) = Ok (nodeSet, map linkOf (parseEdges rest)) /\
    GET (Ok raw) =
      {| body := GraphBody (buildNodes nodeSet) (map linkOf (parseEdges rest));
         http_status := 200 |}.
Proof.
  intros Hlines.
  destruct (visitEdges_ok (parseEdges rest) [] [] [] consistent_nil) as (m & Hv & _ & _).
  simpl in Hv. exists m. split; [exact Hv|].
  unfold GET, tryGET; simpl. rewrite Hlines; simpl.
  pose proof (header_not_falsy _ _ _ Hlines) as Hf. simpl in Hf. rewrite Hf.
  rewrite Hv. reflexivity.
Qed.

Lemma GET_no_line (raw : string) :
  readLines raw = [] ->
  GET (Ok raw) = {| body := ErrorBody "Empty CSV"; http_status := 500 |}.
Proof. intros H. unfold GET, tryGET; simpl. rewrite H. reflexivity. Qed.

End Handler.

(** C6: for every list of accepted edge records, the visit of the edges
    does not throw, and the graph made of the visited node set and of the
    links satisfies: the node identifiers are pairwise distinct and are
    exactly the endpoint identifiers, so the number of nodes is the number
    of distinct endpoints; the degree of a node is the number of edge ends
    at it (2 for a self-loop) and the degrees sum to twice the number of
    edges; there is one link per edge, in edge order; and the importance
    and the confidence of every node lie in [0,1]. *)
Theorem graph_invariants (edges : list CsvEdge) :
  exists (nodeSet : NodeSet) (links : list Link),
    visitEdges [] [] edges = Ok (nodeSet, links) /\
    NoDup (map id (buildNodes nodeSet)) /\
    (forall x, x ∈ map id (buildNodes nodeSet) <-> x ∈ endpoints edges) /\
    length (buildNodes nodeSet) = size (list_to_set (endpoints edges) : gset string) /\
    (forall k v, get nodeSet k = Some v ->
       degree v = sum_list (map (touches k) edges)) /\
    (forall k e, source e = k -> target e = k -> touches k e = 2) /\
    sumDegrees nodeSet = 2 * length edges /\
    links = map linkOf edges /\
    length links = length edges /\
    Forall (fun n => (0 <= importance n <= 1)%Q /\ (0 <= node_confidence n <= 1)%Q)
           (buildNodes nodeSet).
Proof.
  destruct (visitEdges_ok edges [] [] [] consistent_nil)
    as (m & Hv & Hc & Hsum).
  simpl in Hv, Hc, Hsum.
  exists m, (map linkOf edges). split; [exact Hv|].
  pose proof (buildNodes_ids m edges Hc) as Hids.
  destruct Hc as (Hnd & Hkeys & Hget).
  split; [by rewrite Hids|]. split; [intros x; by rewrite Hids|].
  split; [|split; [|split; [|split; [|split; [|split]]]]].
  - rewrite <- (length_map id), Hids, <- (size_list_to_set (C := gset string)) by done.
    f_equal. apply set_eq. intros x. rewrite !elem_of_list_to_set. apply Hkeys.
  - intros k v Hk. rewrite (Hget _ _ Hk). simpl. apply length_strengthsAt.
  - intros k e Hs Ht. unfold touches. rewrite Hs, Ht, String.eqb_refl. reflexivity.
  - exact Hsum.
  - reflexivity.
  - by rewrite length_map.
  - apply Forall_forall. intros n Hn. unfold buildNodes in Hn.
    apply list_elem_of_fmap in Hn as ([k v] & -> & Hin). simpl. split.
    + apply ratio_unit; [by eapply degree_le_maxDegree | apply maxDegree_pos].
    + apply (elem_of_get m k v Hnd), Hget in Hin. subst v.
      exact (makeNode_confidence_unit (maxDegree m) k edges).
Qed.

(** C4, as stated: a table with a header line and no data row makes the
    handler fail with an error.  It does not: the handler answers 200 with
    empty node and link lists. *)
Lemma GET_header_only_is_empty_graph :
  readLines "source,target,effect,confidence,notes
" = ["source,target,effect,confidence,notes"] /\
  GET (Ok "source,target,effect,confidence,notes
") = {| body := GraphBody [] []; http_status := 200 |}.
Proof. split; reflexivity. Qed.

(** C4, amended: when the table has no non-blank line at all (not even a
    header), the handler fails with the error "Empty CSV" and status 500;
    a read failure gives status 500 with the message of the exception, or
    "Failed to load network" when it has none, so the two are told apart
    by the message unless the exception says "Empty CSV" itself.  When the
    table has a header line and no data row, the handler answers 200 with
    empty node and link lists. *)
Theorem GET_empty_table (raw : string) :
  (readLines raw = [] ->
   GET (Ok raw) = {| body := ErrorBody "Empty CSV"; http_status := 500 |} /\
   forall message : option string,
     GET (Throw message) =
       {| body := ErrorBody (default "Failed to load network" message);
          http_status := 500 |} /\
     (message <> Some "Empty CSV" -> GET (Throw message) <> GET (Ok raw))) /\
  (forall header : string, readLines raw = [header] ->
   GET (Ok raw) = {| body := GraphBody [] []; http_status := 200 |}).
Proof.
  split.
  - intros Hno. rewrite (GET_no_line raw Hno). split; [reflexivity|].
    intros message. split; [reflexivity|].
    intros Hm. destruct message as [msg|]; simpl; intros [= E].
    apply Hm. by rewrite E.
  - intros header Hh.
    destruct (GET_graph raw header [] Hh) as (m & Hv & ->).
    simpl in Hv. injection Hv as <-. reflexivity.
Qed.

Lemma GET_empty_table_witness :
  GET (Ok "

") = {| body := ErrorBody "Empty CSV"; http_status := 500 |} /\
  GET (Ok "a,b,c,d,e") = {| body := GraphBody [] []; http_status := 200 |}.
Proof.
  split.
  - apply (proj1 (GET_empty_table "

")). reflexivity.
  - apply (proj2 (GET_empty_table "a,b,c,d,e") "a,b,c,d,e"). reflexivity.
Defined.

(** ** The relationship parser *)

Section Parser.

Import JsString.

Lemma split_not_nil (sep : ascii) (s : string) : split sep s <> [].
Proof.
  induction s as [|c s IH]; simpl; [done|].
  destruct (Ascii.eqb c sep); [done|]. by destruct (split sep s).
Qed.

(** Joining the fields gives the line back. *)
Lemma join_split (sep : ascii) (s : string) :
  join (String sep "") (split sep s) = s.
Proof.
  induction s as [|c s IH]; simpl; [reflexivity|].
  pose proof (split_not_nil sep s) as Hne.
  destruct (Ascii.eqb_spec c sep) as [->|Hc].
  - unfold join in *. simpl. destruct (split sep s) as [|f fs]; [done|].
    simpl in *. by rewrite IH.
  - unfold join in *. destruct (split sep s) as [|f fs]; [done|].
    simpl in *. destruct fs; simpl in *; by rewrite <- IH.
Qed.

Lemma no_comma_cons (c : ascii) (f : string) :
  no_comma (String c f) <-> c <> ","%char /\ no_comma f.
Proof.
  unfold no_comma. cbn [includes String.prefix].
  destruct (ascii_dec "," c) as [<-|Hne]; cbn [orb].
  - replace (String.prefix "" f) with true by (by destruct f).
    split; [discriminate | by intros [? _]].
  - split; [intros H; split; [congruence | done] | by intros [_ H]].
Qed.

(** A field without comma, then a comma: the field is split off. *)
Lemma split_field (f rest : string) :
  no_comma f -> split "," (f +:+ String "," rest) = f :: split "," rest.
Proof.
  induction f as [|c f IH]; simpl; [reflexivity|].
  intros [Hc Hf]%no_comma_cons.
  rewrite (proj2 (Ascii.eqb_neq _ _)) by done.
  by rewrite IH.
Qed.

Lemma parseLine_fields (parts : list string) :
  (if (length parts <? 5)%nat then None
   else
     match parts with
     | source :: target :: effect :: confidence :: notesParts =>
         Some {| source := trim source;
                 target := trim target;
                 effect := trim effect;
                 confidence := trim confidence;
                 notes := trim (join "," notesParts) |}
     | _ => None
     end) =
  if (length parts <? 5)%nat then None else Some (edgeOfFields parts).
Proof. by destruct parts as [|a [|b [|c [|d [|x rest]]]]]. Qed.

Lemma parseLine_spec (line : string) :
  parseLine line =
    if decide (accepted line) then Some (edgeOfFields (split "," line)) else None.
Proof.
  unfold parseLine. rewrite parseLine_fields. unfold accepted.
  destruct (Nat.ltb_spec (length (split "," line)) 5); case_decide; (reflexivity || lia).
Qed.

Lemma parseEdges_fold (lines : list string) : forall acc : list CsvEdge,
  fold_left
    (fun edges line =>
       match parseLine line with
       | Some e => push edges e
       | None => edges
       end) lines acc = acc ++ omap parseLine lines.
Proof.
  induction lines as [|l lines IH]; intros acc; simpl; [by rewrite app_nil_r|].
  rewrite IH. destruct (parseLine l); [|reflexivity].
  unfold push. by rewrite <- app_assoc.
Qed.

Lemma parseEdges_filter (lines : list string) :
  parseEdges lines =
    map (fun line => edgeOfFields (split "," line)) (filter accepted lines).
Proof.
  unfold parseEdges. rewrite parseEdges_fold, app_nil_l.
  induction lines as [|l lines IH]; [reflexivity|].
  change (omap parseLine (l :: lines)) with
    (match parseLine l with
     | Some e => e :: omap parseLine lines
     | None => omap parseLine lines
     end).
  rewrite parseLine_spec, filter_cons, IH.
  by case_decide.
Qed.

End Parser.

(** C5, as stated: the notes of an accepted record are the fields beyond
    the fourth joined with ",".  The parser also trims the joined text: for
    the line [a,b,c,d, x] the notes are "x", not " x". *)
Lemma parseLine_notes_are_trimmed :
  JsString.join "," (drop 4 (JsString.split "," "a,b,c,d, x")) = " x" /\
  parseLine "a,b,c,d, x" =
    Some {| source := "a"; target := "b"; effect := "c"; confidence := "d";
            notes := "x" |} /\
  ~ (forall (line : string) (e : CsvEdge),
       parseLine line = Some e ->
       notes e = JsString.join "," (drop 4 (JsString.split "," line))).
Proof.
  split; [reflexivity|]. split; [reflexivity|].
  intros H. specialize (H "a,b,c,d, x" _ eq_refl). discriminate H.
Qed.

(** C5, amended: a line that splits on commas into fewer than 5 fields is
    skipped (no record, nothing thrown: the records are those of the other
    lines); every other line gives exactly one record, in input order and
    with duplicates kept; the first four fields are trimmed, and the notes
    are the fields beyond the fourth joined with "," and then trimmed, so
    that the text after the fourth comma, commas included, is the notes up
    to surrounding white space. *)
Theorem parseEdges_records (lines : list string) :
  parseEdges lines =
    map (fun line => edgeOfFields (JsString.split "," line)) (filter accepted lines) /\
  (forall line, length (JsString.split "," line) < 5 -> parseLine line = None) /\
  (forall l1 line l2, lines = l1 ++ line :: l2 ->
     length (JsString.split "," line) < 5 ->
     parseEdges lines = parseEdges (l1 ++ l2)) /\
  (forall line, 5 <= length (JsString.split "," line) ->
     exists e, parseLine line = Some e /\
       notes e =
         JsString.trim (JsString.join "," (drop 4 (JsString.split "," line)))) /\
  (forall f1 f2 f3 f4 rest : string,
     no_comma f1 -> no_comma f2 -> no_comma f3 -> no_comma f4 ->
     parseLine (f1 +:+ "," +:+ f2 +:+ "," +:+ f3 +:+ "," +:+ f4 +:+ "," +:+ rest) =
       Some {| source := JsString.trim f1;
               target := JsString.trim f2;
               effect := JsString.trim f3;
               confidence := JsString.trim f4;
               notes := JsString.trim rest |}).
Proof.
  split; [apply parseEdges_filter|]. split; [|split; [|split]].
  - intros line Hlen. rewrite parseLine_spec. unfold accepted.
    case_decide; [lia | reflexivity].
  - intros l1 line l2 -> Hlen. rewrite !parseEdges_filter, !filter_app, filter_cons.
    unfold accepted at 2. case_decide; [lia | reflexivity].
  - intros line Hlen. rewrite parseLine_spec. unfold accepted.
    case_decide; [|lia]. eexists. split; reflexivity.
  - intros f1 f2 f3 f4 rest H1 H2 H3 H4.
    assert (Hsplit :
      JsString.split ","
        (f1 +:+ "," +:+ f2 +:+ "," +:+ f3 +:+ "," +:+ f4 +:+ "," +:+ rest) =
      f1 :: f2 :: f3 :: f4 :: JsString.split "," rest).
    { do 4 (change ("," +:+ ?s) with (String "," s); rewrite split_field by done).
      reflexivity. }
    pose proof (split_not_nil "," rest) as Hne.
    rewrite parseLine_spec.
    case_decide as Hlen; unfold accepted in Hlen; rewrite Hsplit in Hlen; rewrite ?Hsplit.
    + unfold edgeOfFields; simpl. rewrite drop_0.
      by rewrite (join_split "," rest).
    + exfalso. apply Hlen. simpl. destruct (JsString.split "," rest); [done | simpl; lia].
Qed.

Lemma parseEdges_records_witness :
  parseLine "a,b,c" = None /\
  parseLine "vitamin_d,calcium,boosts,High,Improves absorption, see note X" =
    Some {| source := "vitamin_d"; target := "calcium"; effect := "boosts";
            confidence := "High"; notes := "Improves absorption, see note X" |}.
Proof.
  destruct (parseEdges_records []) as (_ & Hshort & _ & _ & Hfields).
  split.
  - apply Hshort. simpl. lia.
  - apply (Hfields "vitamin_d" "calcium" "boosts" "High"
             "Improves absorption, see note X"); reflexivity.
Defined.

(** ** The snapshot highlighter *)

Section Highlighter.

Import JsString.

Lemma toLowerCase_app (a b : string) :
  toLowerCase (a +:+ b) = toLowerCase a +:+ toLowerCase b.
Proof. induction a as [|c a IH]; simpl; [|rewrite IH]; reflexivity. Qed.

Lemma ws_run_lower (w : string) : ws_run w -> ws_run (toLowerCase w).
Proof.
  intros [Hne Hall]. split.
  - by destruct w.
  - clear Hne. induction w as [|c w IH]; simpl in *; [constructor|].
    apply Forall_cons in Hall as [Hc Hw].
    constructor; [by rewrite is_ws_lower_char | by apply IH].
Qed.

Lemma replaceWsRuns_run (w b : string) (in_run : bool) :
  Forall (fun c => is_ws c = true) (list_ascii_of_string w) ->
  replaceWsRuns in_run (w +:+ b) =
    match w with
    | EmptyString => replaceWsRuns in_run b
    | String _ _ => (if in_run then "" else "_") +:+ replaceWsRuns true b
    end.
Proof.
  revert in_run. induction w as [|c w IH]; intros in_run Hall; simpl in *; [reflexivity|].
  apply Forall_cons in Hall as [-> Hw].
  destruct in_run; rewrite (IH true Hw); by destruct w.
Qed.

(** The length of a white-space run does not matter. *)
Lemma normalizeId_ws_run (a w1 w2 b : string) :
  ws_run w1 -> ws_run w2 ->
  normalizeId (a +:+ w1 +:+ b) = normalizeId (a +:+ w2 +:+ b).
Proof.
  intros H1%ws_run_lower H2%ws_run_lower. unfold normalizeId.
  rewrite !toLowerCase_app.
  generalize false. induction (toLowerCase a) as [|c la IH]; intros r; simpl.
  - destruct H1 as [Hn1 Ha1], H2 as [Hn2 Ha2].
    rewrite !replaceWsRuns_run by done.
    by destruct (toLowerCase w1), (toLowerCase w2).
  - destruct (is_ws c); [destruct r|]; by rewrite IH.
Qed.

Lemma normalizeId_case (a b : string) :
  toLowerCase a = toLowerCase b -> normalizeId a = normalizeId b.
Proof. unfold normalizeId. by intros ->. Qed.

Lemma targets_fold (names : list string) : forall (init : gset string) (t : string),
  t ∈ fold_left (fun targets name => targets ∪ {[ normalizeId name ]}) names init <->
  t ∈ init \/ exists name, name ∈ names /\ t = normalizeId name.
Proof.
  induction names as [|x names IH]; intros init t; simpl.
  - split; [auto|]. intros [?|(name & Hin & _)]; [done | inversion Hin].
  - rewrite IH, elem_of_union, elem_of_singleton. split.
    + intros [[?| ->]|(name & Hin & ->)]; [by left | right | right].
      * exists x. split; [left | done].
      * exists name. split; [by right | done].
    + intros [?|(name & [->|Hin]%elem_of_cons & ->)]; [by left; left | by left; right |].
      right. by exists name.
Qed.

Lemma matched_fold (p : Node -> bool) (nodes : list Node) :
  forall (init : gset string) (x : string),
  x ∈ fold_left (fun (matched : gset string) n =>
                   if p n then matched ∪ {[ id n ]} else matched) nodes init <->
  x ∈ init \/ exists n, n ∈ nodes /\ id n = x /\ p n = true.
Proof.
  induction nodes as [|n0 nodes IH]; intros init x; simpl.
  - split; [auto|]. intros [?|(n & Hin & _)]; [done | inversion Hin].
  - rewrite IH. destruct (p n0) eqn:Hp.
    + rewrite elem_of_union, elem_of_singleton. split.
      * intros [[?| ->]|(n & Hin & Hid & Hn)]; [by left | right | right].
        -- exists n0. split; [left | done].
        -- exists n. split; [by right | done].
      * intros [?|(n & [->|Hin]%elem_of_cons & Hid & Hn)];
          [by left; left | by left; right |].
        right. by exists n.
    + split.
      * intros [?|(n & Hin & Hid & Hn)]; [by left | right].
        exists n. split; [by right | done].
      * intros [?|(n & [->|Hin]%elem_of_cons & Hid & Hn)]; [by left | congruence |].
        right. by exists n.
Qed.

Lemma highlightedIds_elem (nodes : list Node) (deficiencies highRisk : list string)
    (x : string) :
  x ∈ highlightedIds nodes deficiencies highRisk <->
  exists n, n ∈ nodes /\ id n = x /\ named deficiencies highRisk n.
Proof.
  unfold highlightedIds. destruct (length nodes =? 0)%nat eqn:Hlen.
  - apply Nat.eqb_eq, nil_length_inv in Hlen as ->.
    split; [set_solver|]. intros (n & Hin & _). inversion Hin.
  - rewrite matched_fold. split.
    + intros [H|(n & Hin & Hid & Hp)]; [by apply not_elem_of_empty in H|].
      exists n. split; [done|]. split; [done|].
      apply orb_true_iff in Hp as [Hp|Hp]; apply bool_decide_eq_true in Hp;
        apply targets_fold in Hp as [Hp|(name & Hname & Heq)];
        [by apply not_elem_of_empty in Hp | | by apply not_elem_of_empty in Hp |].
      * exists name. rewrite elem_of_app in Hname. split; [done | by left].
      * exists name. rewrite elem_of_app in Hname. split; [done | by right].
    + intros (n & Hin & Hid & name & Hname & Heq). right.
      exists n. split; [done|]. split; [done|].
      apply orb_true_iff.
      destruct Heq as [Heq|Heq]; [left | right]; apply bool_decide_eq_true;
        apply targets_fold; right; exists name; by rewrite elem_of_app.
Qed.

End Highlighter.

Section HighlighterNormalization.

Import JsString.

Lemma replaceWsRuns_no_start (s : string) :
  startsWithWs s = false -> replaceWsRuns true s = replaceWsRuns false s.
Proof. destruct s as [|c s]; simpl; [done|]. by intros ->. Qed.

Lemma startsWithWs_lower (s : string) :
  startsWithWs (toLowerCase s) = startsWithWs s.
Proof. destruct s as [|c s]; simpl; [done|]. apply is_ws_lower_char. Qed.

Lemma normalizeId_char (c : ascii) (s : string) :
  is_ws c = false ->
  normalizeId (String c s) = String (lower_char c) (normalizeId s).
Proof.
  intros Hc. unfold normalizeId. simpl. by rewrite is_ws_lower_char, Hc.
Qed.

Lemma normalizeId_run (w s : string) :
  ws_run w -> startsWithWs s = false ->
  normalizeId (w +:+ s) = String "_" (normalizeId s).
Proof.
  intros Hw%ws_run_lower Hs. unfold normalizeId.
  rewrite toLowerCase_app. destruct Hw as [Hne Hall].
  rewrite replaceWsRuns_run by done.
  destruct (toLowerCase w); [done|].
  rewrite replaceWsRuns_no_start by by rewrite startsWithWs_lower.
  reflexivity.
Qed.

Lemma normalizeId_noWs (s : string) : noWs s -> normalizeId s = toLowerCase s.
Proof.
  unfold noWs, chars. induction s as [|c s IH]; [done|].
  simpl. intros [Hc Hs]%Forall_cons.
  rewrite normalizeId_char by done. by rewrite IH.
Qed.

Lemma is_upper_lower_char (c : ascii) : is_upper (lower_char c) = false.
Proof. destruct c as [[] [] [] [] [] [] [] []]; reflexivity. Qed.

Lemma replaceWsRuns_chars (P : ascii -> Prop) (s : string) :
  P "_"%char ->
  Forall (fun c => is_ws c = false -> P c) (chars s) ->
  forall r, Forall (fun c => is_ws c = false /\ P c) (chars (replaceWsRuns r s)).
Proof.
  intros Hu. unfold chars. induction s as [|c s IH]; simpl; intros Hs r; [constructor|].
  apply Forall_cons in Hs as [Hc Hs].
  destruct (is_ws c) eqn:E.
  - destruct r; [by apply IH|]. simpl. constructor; [done | by apply IH].
  - simpl. constructor; [by split; [|apply Hc] | by apply IH].
Qed.

Lemma normalizeId_chars (s : string) :
  Forall (fun c => is_ws c = false /\ is_upper c = false) (chars (normalizeId s)).
Proof.
  unfold normalizeId. apply replaceWsRuns_chars; [reflexivity|].
  unfold chars. induction s as [|c s IH]; simpl; constructor; [|exact IH].
  intros _. apply is_upper_lower_char.
Qed.

Lemma is_ws_codes (c : ascii) :
  is_ws c = true <-> code c ∈ [9; 10; 11; 12; 13; 32]%nat.
Proof.
  unfold is_ws. rewrite orb_true_iff, andb_true_iff, !Nat.leb_le, Nat.eqb_eq.
  rewrite !elem_of_cons, elem_of_nil. lia.
Qed.

Lemma lower_char_codes (c : ascii) :
  (65 <= code c <= 90 -> code (lower_char c) = code c + 32) /\
  (~ 65 <= code c <= 90 -> lower_char c = c).
Proof.
  unfold lower_char, is_upper. split.
  - intros [H1 H2].
    rewrite (proj2 (Nat.leb_le _ _) H1), (proj2 (Nat.leb_le _ _) H2). simpl.
    unfold code in *. rewrite nat_ascii_embedding; [done | lia].
  - intros H. destruct (65 <=? code c)%nat eqn:E1; [|done].
    destruct (code c <=? 90)%nat eqn:E2; [|done].
    apply Nat.leb_le in E1, E2. lia.
Qed.

End HighlighterNormalization.

(** C9: an identifier is in the highlight set iff it is the id of a node
    whose normalized id or normalized label equals the normalization of a
    name of [deficiencies] or [highRisk]; for nodes with pairwise distinct
    ids, a node is highlighted iff it is so named; when no name matches a
    node the highlight set is empty.  Normalization lower-cases and
    replaces each white-space run by one underscore: it maps the empty
    string to itself, a character that is not white space to its lower
    case (the letters A-Z to a-z, every other ASCII character to itself)
    followed by the normalization of the rest, and a white-space run (the
    ASCII codes 9 to 13 and 32) followed by no white space to one
    underscore followed by the normalization of the rest; its result has
    neither white space nor upper-case letters.  So names that differ by
    letter case or by the length of a white-space run match the same
    nodes ("Vitamin D" matches the node id vitamin_d), while two names
    without white space match only if they are equal up to letter case:
    "Vitamin C" does not match vitamin_d. *)
Theorem highlightedIds_spec (nodes : list Node) (deficiencies highRisk : list string) :
  (forall x, x ∈ highlightedIds nodes deficiencies highRisk <->
     exists n, n ∈ nodes /\ id n = x /\ named deficiencies highRisk n) /\
  (NoDup (map id nodes) ->
   forall n, n ∈ nodes ->
     (id n ∈ highlightedIds nodes deficiencies highRisk <->
      named deficiencies highRisk n)) /\
  ((forall n, n ∈ nodes -> ~ named deficiencies highRisk n) ->
   highlightedIds nodes deficiencies highRisk = ∅) /\
  (forall a b, JsString.toLowerCase a = JsString.toLowerCase b ->
     normalizeId a = normalizeId b) /\
  (forall a w1 w2 b, ws_run w1 -> ws_run w2 ->
     normalizeId (a +:+ w1 +:+ b) = normalizeId (a +:+ w2 +:+ b)) /\
  normalizeId "Vitamin D" = "vitamin_d" /\
  normalizeId "Vitamin D" = normalizeId "vitamin_d" /\
  normalizeId "" = "" /\
  (forall c s, JsString.is_ws c = false ->
     normalizeId (String c s) = String (JsString.lower_char c) (normalizeId s)) /\
  (forall w s, ws_run w -> startsWithWs s = false ->
     normalizeId (w +:+ s) = String "_" (normalizeId s)) /\
  (forall c, JsString.code c < 128 ->
     (JsString.is_ws c = true <-> JsString.code c ∈ [9; 10; 11; 12; 13; 32]) /\
     (65 <= JsString.code c <= 90 ->
      JsString.code (JsString.lower_char c) = JsString.code c + 32) /\
     (~ 65 <= JsString.code c <= 90 -> JsString.lower_char c = c)) /\
  (forall s, Forall (fun c => JsString.is_ws c = false /\ JsString.is_upper c = false)
                    (chars (normalizeId s))) /\
  (forall a b, noWs a -> noWs b ->
     (normalizeId a = normalizeId b <->
      JsString.toLowerCase a = JsString.toLowerCase b)) /\
  normalizeId "Vitamin C" <> normalizeId "vitamin_d" /\
  highlightedIds vitaminDAndCalcium ["Vitamin C"] ["iron"] = ∅.
Proof.
  split; [intros x; apply highlightedIds_elem|].
  split; [|split; [|split; [|split; [|split; [|split]]]]].
  - intros Hnd n Hn. rewrite highlightedIds_elem. split.
    + intros (n' & Hn' & Hid & Hnamed).
      assert (n' = n) as <-; [|done].
      apply list_elem_of_lookup in Hn as [i Hi], Hn' as [j Hj].
      assert (i = j) as ->; [|congruence].
      assert (Hi' : map id nodes !! i = Some (id n)).
      { change (map id nodes) with (id <$> nodes). by rewrite list_lookup_fmap, Hi. }
      assert (Hj' : map id nodes !! j = Some (id n)).
      { change (map id nodes) with (id <$> nodes).
        rewrite list_lookup_fmap, Hj. simpl. by rewrite Hid. }
      exact (NoDup_lookup _ _ _ _ Hnd Hi' Hj').
    + intros Hnamed. by exists n.
  - intros Hnone. apply set_eq. intros x. rewrite highlightedIds_elem.
    split; [|set_solver]. intros (n & Hn & _ & Hnamed). by destruct (Hnone n Hn).
  - apply normalizeId_case.
  - apply normalizeId_ws_run.
  - reflexivity.
  - reflexivity.
  - split; [reflexivity|].
    split; [apply normalizeId_char|].
    split; [apply normalizeId_run|].
    split.
    { intros c _. split; [apply is_ws_codes | apply lower_char_codes]. }
    split; [apply normalizeId_chars|].
    split.
    { intros a b Ha Hb. by rewrite !normalizeId_noWs. }
    split; [discriminate|].
    apply set_eq. intros x. rewrite highlightedIds_elem.
    split; [|set_solver].
    intros (n & Hn & _ & name & Hname & Heq). exfalso.
    assert (Hnames : name = "Vitamin C" \/ name = "iron") by set_solver.
    unfold vitaminDAndCalcium in Hn.
    apply elem_of_cons in Hn as [-> | Hn];
      [|apply list_elem_of_singleton in Hn as ->];
      destruct Hnames as [-> | ->], Heq as [Heq | Heq]; discriminate Heq.
Qed.

Lemma highlightedIds_spec_witness :
  "vitamin_d" ∈ highlightedIds vitaminDAndCalcium ["Vitamin D"] [].
Proof.
  assert (Hnd : NoDup (map id vitaminDAndCalcium)).
  { apply (bool_decide_unpack _). reflexivity. }
  destruct (highlightedIds_spec vitaminDAndCalcium ["Vitamin D"] []) as (_ & H & _).
  apply (H Hnd (hd vitaminDNode vitaminDAndCalcium)).
  - left.
  - exists "Vitamin D". split; [left; left | left; reflexivity].
Defined.

(** * Further properties of the graph route *)

Section NodeOrder.

Lemma firstOccurrences_snoc (l : list string) (x : string) :
  firstOccurrences (l ++ [x]) =
    if decide (x ∈ l) then firstOccurrences l else firstOccurrences l ++ [x].
Proof.
  unfold firstOccurrences. rewrite rev_unit. simpl.
  destruct (decide_rel elem_of x (rev l)) as [Hin|Hin]; case_decide as Hl;
    try reflexivity; exfalso.
  - apply Hl. by apply list_elem_of_In, in_rev, list_elem_of_In.
  - apply Hin. by apply list_elem_of_In, in_rev; rewrite rev_involutive; apply list_elem_of_In.
Qed.

Lemma elem_of_firstOccurrences (l : list string) (x : string) :
  x ∈ firstOccurrences l <-> x ∈ l.
Proof.
  unfold firstOccurrences.
  rewrite !list_elem_of_In, <- in_rev, <- !list_elem_of_In, elem_of_remove_dups.
  by rewrite !list_elem_of_In, <- in_rev.
Qed.

Lemma keys_ensure_firstOccurrences (m : NodeSet) (l : list string) (k : string) :
  keys m = firstOccurrences l ->
  keys (ensure m k) = firstOccurrences (l ++ [k]).
Proof.
  intros Hk. rewrite keys_ensure, firstOccurrences_snoc, <- Hk.
  destruct (has m k) eqn:Hh; case_decide as Hin; try reflexivity; exfalso.
  - apply Hin. rewrite <- elem_of_firstOccurrences, <- Hk. by apply get_keys, has_get.
  - rewrite <- elem_of_firstOccurrences, <- Hk in Hin.
    apply get_keys, has_get in Hin. congruence.
Qed.

Lemma visitEdges_keys (edges : list CsvEdge) : forall (m : NodeSet) (links : list Link)
    (es : list CsvEdge) (m' : NodeSet) (links' : list Link),
  keys m = firstOccurrences (endpoints es) ->
  visitEdges m links edges = Ok (m', links') ->
  keys m' = firstOccurrences (endpoints (es ++ edges)).
Proof.
  induction edges as [|e edges IH]; intros m links es m' links' Hk Hv; simpl in Hv.
  - injection Hv as <- _. by rewrite app_nil_r.
  - destruct (visitEdge_ok m e) as (m1 & Hv1 & Hk1 & _).
    rewrite Hv1 in Hv; simpl in Hv.
    replace (es ++ e :: edges) with ((es ++ [e]) ++ edges) by by rewrite <- app_assoc.
    apply (IH _ _ (es ++ [e])) in Hv; [exact Hv|].
    rewrite Hk1, endpoints_snoc.
    change [source e; target e] with ([source e] ++ [target e]).
    rewrite app_assoc.
    by do 2 apply keys_ensure_firstOccurrences.
Qed.

End NodeOrder.

(** X1: the nodes of the graph come in the order in which their
    identifiers first occur among the edge endpoints (source before target,
    edge after edge). *)
Theorem nodes_in_first_occurrence_order
    (edges : list CsvEdge) (nodeSet : NodeSet) (links : list Link) :
  visitEdges [] [] edges = Ok (nodeSet, links) ->
  map id (buildNodes nodeSet) = firstOccurrences (endpoints edges).
Proof.
  intros Hv.
  pose proof (visitEdges_consistent _ _ _ Hv) as [Hc _].
  rewrite (buildNodes_ids _ _ Hc).
  by apply (visitEdges_keys edges [] [] [] nodeSet links).
Qed.

Lemma nodes_in_first_occurrence_order_witness :
  exists nodeSet links,
    visitEdges [] [] ironHighLow = Ok (nodeSet, links) /\
    map id (buildNodes nodeSet) = ["iron"; "vitamin_c"; "calcium"].
Proof.
  eexists _, _. split; [reflexivity|].
  eapply (nodes_in_first_occurrence_order ironHighLow). reflexivity.
Defined.

Section NodeMetrics.

Implicit Types (m : NodeSet) (k : string) (es : list CsvEdge).

Lemma strengthsAt_endpoint k es : k ∈ endpoints es -> strengthsAt k es <> [].
Proof.
  induction es as [|e es IH]; simpl; [inversion 1|].
  rewrite !elem_of_cons. unfold touches.
  intros [->|[->|Hin]].
  - rewrite String.eqb_refl. simpl. discriminate.
  - rewrite String.eqb_refl, Nat.add_comm. simpl. discriminate.
  - intros Happ. apply app_eq_nil in Happ as [_ Hnil]. by apply IH.
Qed.

Lemma buildNodes_inv m es (n : Node) :
  consistent m es -> n ∈ buildNodes m ->
  exists k, k ∈ endpoints es /\ (k, accOf k es) ∈ m /\
    n = makeNode (maxDegree m) (accOf k es).
Proof.
  intros (Hnd & Hkeys & Hget) Hn. unfold buildNodes in Hn.
  apply list_elem_of_fmap in Hn as ([k v] & -> & Hin). simpl.
  pose proof (elem_of_get m k v Hnd Hin) as Hg.
  pose proof (Hget _ _ Hg) as ->.
  exists k. split; [|done].
  apply Hkeys, get_keys. by rewrite Hg.
Qed.

Lemma fold_max_attained (l : list nat) : forall a : nat,
  fold_left Nat.max l a = a \/ fold_left Nat.max l a ∈ l.
Proof.
  induction l as [|x l IH]; intros a; simpl; [by left|].
  destruct (IH (Nat.max a x)) as [H|H]; [|right; by right].
  rewrite H. destruct (Nat.max_spec a x) as [[_ ->]|[_ ->]]; [right; left | by left].
Qed.

Lemma maxDegree_attained m es :
  consistent m es -> m <> [] ->
  exists k v, (k, v) ∈ m /\ degree v = maxDegree m /\ 1 <= degree v.
Proof.
  intros Hc Hne.
  assert (Hpos : forall k v, (k, v) ∈ m -> 1 <= degree v).
  { intros k v Hin. destruct Hc as (Hnd & Hkeys & Hget).
    pose proof (Hget _ _ (elem_of_get m k v Hnd Hin)) as ->. simpl.
    assert (Hk : k ∈ endpoints es).
    { apply Hkeys. apply (list_elem_of_fmap_2 fst) in Hin. exact Hin. }
    apply strengthsAt_endpoint in Hk. destruct (strengthsAt k es); [done | simpl; lia]. }
  destruct (fold_max_attained (map (fun kv => degree (snd kv)) m) 1) as [H1|Hin].
  - destruct m as [|[k v] m']; [done|]. exists k, v.
    assert (Hin : (k, v) ∈ (k, v) :: m') by left.
    pose proof (Hpos _ _ Hin). pose proof (degree_le_maxDegree _ _ _ Hin) as Hle.
    unfold maxDegree in *. rewrite H1 in *. split; [done|]. split; lia.
  - change (map (fun kv => degree (snd kv)) m) with ((fun kv => degree (snd kv)) <$> m) in Hin.
    apply list_elem_of_fmap in Hin as ([k v] & Heq & Hin). simpl in Heq.
    exists k, v. split; [done|]. split; [by rewrite <- Heq | by eapply Hpos].
Qed.

Lemma ofNat_ratio_pos (a b : nat) : 1 <= a -> 1 <= b -> (0 < ofNat a / ofNat b)%Q.
Proof.
  intros Ha Hb. apply Qlt_shift_div_l; [by apply ofNat_pos|].
  rewrite Qmult_0_l. by apply ofNat_pos.
Qed.

Lemma ofNat_ratio_self (a : nat) : 1 <= a -> (ofNat a / ofNat a == 1)%Q.
Proof.
  intros Ha. unfold Qdiv. apply Qmult_inv_r.
  intros H0. pose proof (ofNat_pos a Ha) as Hpos. rewrite H0 in Hpos.
  by apply Qlt_irrefl in Hpos.
Qed.

Lemma fold_sum_between (lo hi : Q) (l : list Q) : forall (a : Q) (n : nat),
  Forall (between lo hi) l ->
  (lo * ofNat n <= a <= hi * ofNat n)%Q ->
  (lo * ofNat (n + length l) <= fold_left Qplus l a <= hi * ofNat (n + length l))%Q.
Proof.
  induction l as [|x l IH]; intros a n Hl [Ha0 Han]; simpl.
  - by rewrite Nat.add_0_r.
  - apply Forall_cons in Hl as [[Hx0 Hx1] Hl].
    replace (n + S (length l)) with (S n + length l) by lia.
    apply IH; [done|]. rewrite ofNat_S. split.
    + setoid_replace (lo * (ofNat n + 1))%Q with (lo * ofNat n + lo)%Q using relation Qeq by ring.
      by apply Qplus_le_compat.
    + setoid_replace (hi * (ofNat n + 1))%Q with (hi * ofNat n + hi)%Q using relation Qeq by ring.
      by apply Qplus_le_compat.
Qed.

(** The mean of numbers of [lo, hi] lies in [lo, hi]. *)
Lemma meanQ_between (lo hi : Q) (l : list Q) :
  Forall (between lo hi) l -> l <> [] -> between lo hi (meanQ l).
Proof.
  intros Hl Hne.
  assert (Hlen : 1 <= length l) by (destruct l; [done | simpl; lia]).
  pose proof (ofNat_pos _ Hlen) as Hpos.
  destruct (fold_sum_between lo hi l 0%Q 0 Hl) as [H0 H1].
  { unfold ofNat; simpl. rewrite !Qmult_0_r. split; apply Qle_refl. }
  simpl in H0, H1. unfold meanQ, sumQ. split.
  - by apply Qle_shift_div_l.
  - by apply Qle_shift_div_r.
Qed.

Lemma confidenceToNumber_between (conf : string) :
  between 0.3 0.9 (confidenceToNumber conf).
Proof.
  unfold confidenceToNumber.
  repeat match goal with |- context [if ?b then _ else _] => destruct b end;
    split; discriminate.
Qed.

Lemma strengthsAt_between k es : Forall (between 0.3 0.9) (strengthsAt k es).
Proof.
  unfold strengthsAt. induction es as [|e es IH]; simpl; [constructor|].
  apply Forall_app. split; [|done].
  apply Forall_replicate. apply confidenceToNumber_between.
Qed.

End NodeMetrics.

Section Importance.

Lemma ofNat_le_iff (a b : nat) : (ofNat a <= ofNat b)%Q <-> a <= b.
Proof. unfold ofNat. rewrite <- Zle_Qle. lia. Qed.

Lemma ofNat_ratio_le (a b m : nat) :
  1 <= m -> (ofNat a / ofNat m <= ofNat b / ofNat m)%Q <-> a <= b.
Proof.
  intros Hm. rewrite <- ofNat_le_iff. unfold Qdiv.
  apply Qmult_le_r. apply Qinv_lt_0_compat. by apply ofNat_pos.
Qed.

Lemma ofNat_ratio_one (a m : nat) :
  1 <= m -> (ofNat a / ofNat m == 1)%Q <-> a = m.
Proof.
  intros Hm. pose proof (ofNat_pos m Hm) as Hpos. split.
  - intros H.
    assert (Ha : (ofNat a == ofNat m)%Q).
    { assert (Hm0 : ~ (ofNat m == 0)%Q).
      { intros E. rewrite E in Hpos. by apply Qlt_irrefl in Hpos. }
      rewrite <- (Qmult_div_r (ofNat a) (ofNat m) Hm0), H. ring. }
    unfold ofNat in Ha. apply (proj1 (inject_Z_injective _ _)) in Ha. lia.
  - intros ->. by apply ofNat_ratio_self.
Qed.

Lemma roundoff_pos : (0 < roundoff)%Q.
Proof. reflexivity. Qed.

End Importance.

Lemma meanQ_singleton (s : Q) : (meanQ [s] == s)%Q.
Proof. unfold meanQ, sumQ, ofNat. simpl. field. Qed.

Lemma ofNat_nonneg (a : nat) : (0 <= ofNat a)%Q.
Proof. unfold ofNat. change 0%Q with (inject_Z 0). rewrite <- Zle_Qle. lia. Qed.

(** X2: importance is the degree normalised by the largest degree.  With
    no edge there is no node; otherwise there is a largest degree, at least
    1, reached by some endpoint, and for every node: the importance is the
    quotient of its degree (the number of edge ends at its identifier) by
    the largest degree, up to the rounding of the division; it is above 0;
    it is 1 exactly for the nodes of largest degree, of which there is at
    least one; and it orders the nodes as their degrees do. *)
Theorem importance_normalised
    (edges : list CsvEdge) (nodeSet : NodeSet) (links : list Link) :
  visitEdges [] [] edges = Ok (nodeSet, links) ->
  (edges = [] -> buildNodes nodeSet = []) /\
  Forall (fun n => (0 < importance n)%Q) (buildNodes nodeSet) /\
  (edges <> [] -> exists n, n ∈ buildNodes nodeSet /\ (importance n == 1)%Q) /\
  exists largest : nat,
    1 <= largest /\
    (forall k, k ∈ endpoints edges -> degreeAt k edges <= largest) /\
    (edges <> [] -> exists k, k ∈ endpoints edges /\ degreeAt k edges = largest) /\
    (forall n, n ∈ buildNodes nodeSet ->
       let quotient := (ofNat (degreeAt (id n) edges) / ofNat largest)%Q in
       (quotient - roundoff <= importance n <= quotient + roundoff)%Q /\
       ((importance n == 1)%Q <-> degreeAt (id n) edges = largest)) /\
    (forall n n', n ∈ buildNodes nodeSet -> n' ∈ buildNodes nodeSet ->
       ((importance n <= importance n')%Q <->
        degreeAt (id n) edges <= degreeAt (id n') edges)).
Proof.
  intros Hv. pose proof (visitEdges_consistent _ _ _ Hv) as [Hc _].
  assert (Hatt : edges <> [] ->
            exists k v, (k, v) ∈ nodeSet /\ degree v = maxDegree nodeSet /\ 1 <= degree v).
  { intros Hne. apply (maxDegree_attained _ edges Hc).
    intros ->. destruct Hc as (_ & Hkeys & _). destruct edges as [|e es]; [done|].
    assert (Hin : source e ∈ endpoints (e :: es)) by (simpl; left).
    apply Hkeys in Hin. inversion Hin. }
  assert (Hacc : forall k v, (k, v) ∈ nodeSet ->
            k ∈ endpoints edges /\ degree v = degreeAt k edges).
  { intros k v Hin. destruct Hc as (Hnd & Hkeys & Hget). split.
    - apply Hkeys. apply (list_elem_of_fmap_2 fst) in Hin. exact Hin.
    - rewrite (Hget k v (elem_of_get _ _ _ Hnd Hin)). simpl. apply length_strengthsAt. }
  assert (Himp : forall n, n ∈ buildNodes nodeSet ->
            importance n =
              (ofNat (degreeAt (id n) edges) / ofNat (maxDegree nodeSet))%Q).
  { intros n Hn. destruct (buildNodes_inv _ _ _ Hc Hn) as (k & Hk & _ & ->). simpl.
    unfold degreeAt. by rewrite <- length_strengthsAt. }
  split; [|split; [|split]].
  - intros ->. simpl in Hv. by injection Hv as <- _.
  - apply Forall_forall. intros n Hn.
    destruct (buildNodes_inv _ _ _ Hc Hn) as (k & Hk & _ & ->). simpl.
    apply ofNat_ratio_pos; [|apply maxDegree_pos].
    apply strengthsAt_endpoint in Hk. destruct (strengthsAt k edges); [done | simpl; lia].
  - intros Hne. destruct (Hatt Hne) as (k & v & Hin & Hdeg & Hpos).
    exists (makeNode (maxDegree nodeSet) v). split.
    + unfold buildNodes.
      apply (list_elem_of_fmap_2 (fun kv => makeNode (maxDegree nodeSet) (snd kv))) in Hin.
      exact Hin.
    + simpl. rewrite <- Hdeg. by apply ofNat_ratio_self.
  - exists (maxDegree nodeSet). pose proof (maxDegree_pos nodeSet) as Hpos.
    split; [exact Hpos|]. split; [|split; [|split]].
    + intros k Hk.
      pose proof (node_of_endpoint _ _ _ Hc Hk) as Hn.
      destruct Hc as (Hnd & Hkeys & Hget).
      apply Hkeys in Hk. apply get_keys in Hk as [v Hg].
      pose proof (Hget _ _ Hg) as ->.
      unfold degreeAt. rewrite <- length_strengthsAt.
      apply (degree_le_maxDegree nodeSet k (accOf k edges)).
      by apply get_elem_of.
    + intros Hne. destruct (Hatt Hne) as (k & v & Hin & Hdeg & _).
      destruct (Hacc _ _ Hin) as [Hk Hd]. exists k. split; [done | congruence].
    + intros n Hn. cbv zeta. rewrite (Himp n Hn). split.
      * pose proof roundoff_pos. split; lra.
      * by apply ofNat_ratio_one.
    + intros n n' Hn Hn'. rewrite (Himp n Hn), (Himp n' Hn').
      by apply ofNat_ratio_le.
Qed.

Lemma importance_normalised_witness :
  exists nodeSet links n,
    visitEdges [] [] ironHighLow = Ok (nodeSet, links) /\
    n ∈ buildNodes nodeSet /\ (importance n == 1)%Q.
Proof.
  eexists _, _.
  destruct (importance_normalised ironHighLow _ _ eq_refl) as (_ & _ & H & _).
  destruct (H ltac:(discriminate)) as (n & Hn & Hi).
  exists n. split; [reflexivity|]. split; [exact Hn | exact Hi].
Defined.

(** X3: the strengths that a node averages are the strengths of the edge
    ends at its identifier, in edge order, one per end, and the degree is
    their number; every node has at least one, so that the 0.5 fallback for
    a node without confidences is never taken.  The confidence of a node
    with a single edge end is the strength of that edge; in general it is
    the mean of the strengths up to the rounding of the additions and of
    the division, that is within 2^-52 times the number of strengths. *)
Theorem node_confidence_is_mean
    (edges : list CsvEdge) (nodeSet : NodeSet) (links : list Link) :
  visitEdges [] [] edges = Ok (nodeSet, links) ->
  (forall k v, get nodeSet k = Some v ->
     confidences v = strengthsAt k edges /\
     degree v = length (confidences v) /\
     confidences v <> []) /\
  (forall n, n ∈ buildNodes nodeSet ->
     let strengths := strengthsAt (id n) edges in
     let slack := (ofNat (length strengths) * (2 * roundoff))%Q in
     strengths <> [] /\
     (forall s, strengths = [s] -> (node_confidence n == s)%Q) /\
     (meanQ strengths - slack <= node_confidence n <= meanQ strengths + slack)%Q).
Proof.
  intros Hv. pose proof (visitEdges_consistent _ _ _ Hv) as [Hc _].
  split.
  - intros k v Hg. destruct Hc as (_ & Hkeys & Hget).
    rewrite (Hget _ _ Hg). simpl. split; [done|]. split; [done|].
    apply strengthsAt_endpoint, Hkeys, get_keys. by exists v.
  - intros n Hn.
    destruct (buildNodes_inv _ _ _ Hc Hn) as (k & Hk & _ & ->). simpl.
    pose proof (strengthsAt_endpoint _ _ Hk) as Hne.
    split; [exact Hne|].
    assert (Hlen : (length (strengthsAt k edges) =? 0)%nat = false).
    { apply Nat.eqb_neq. destruct (strengthsAt k edges); [done | simpl; lia]. }
    rewrite Hlen. fold (meanQ (strengthsAt k edges)). split.
    + intros s ->. apply meanQ_singleton.
    + pose proof (ofNat_nonneg (length (strengthsAt k edges))) as Hl.
      pose proof roundoff_pos as Hr.
      assert (0 <= ofNat (length (strengthsAt k edges)) * (2 * roundoff))%Q.
      { apply Qmult_le_0_compat; [done | lra]. }
      split; lra.
Qed.

Lemma node_confidence_is_mean_witness :
  exists nodeSet links n,
    visitEdges [] [] ironHighLow = Ok (nodeSet, links) /\
    n ∈ buildNodes nodeSet /\
    strengthsAt (id n) ironHighLow <> [].
Proof.
  eexists _, _, _. split; [reflexivity|]. split; [left|].
  eapply (proj2 (node_confidence_is_mean ironHighLow _ _ eq_refl)). left.
Defined.

(** X4: the handler answers 200 or 500, never anything else; the body is
    a graph exactly when the status is 200; the status is 200 only if the
    file was read and has at least one non-blank line; a failed read and a
    file without a non-blank line both give status 500 with an error
    message. *)
Theorem GET_outcome (readFile : Result string) :
  (http_status (GET readFile) = 200 \/ http_status (GET readFile) = 500) /\
  (http_status (GET readFile) = 200 <-> isGraph (GET readFile)) /\
  (http_status (GET readFile) = 200 ->
     exists raw, readFile = Ok raw /\ readLines raw <> []) /\
  ((forall raw, readFile = Ok raw -> readLines raw = []) ->
     http_status (GET readFile) = 500 /\
     exists error, body (GET readFile) = ErrorBody error).
Proof.
  destruct readFile as [raw|message].
  - destruct (readLines raw) as [|header rest] eqn:Hlines.
    + rewrite (GET_no_line raw Hlines). unfold isGraph; simpl.
      split; [by right|]. split; [split; [discriminate | done]|].
      split; [discriminate|]. intros _. split; [done | by eexists].
    + destruct (GET_graph raw header rest Hlines) as (m & _ & ->).
      unfold isGraph; simpl.
      split; [by left|]. split; [done|].
      split; [intros _; exists raw; by rewrite Hlines|].
      intros H. specialize (H raw eq_refl). congruence.
  - unfold GET, isGraph; simpl.
    split; [by right|]. split; [split; [discriminate | done]|].
    split; [discriminate|]. intros _. split; [done | by eexists].
Qed.

(** * Further properties of the string operations *)

Section TrimFacts.

Import JsString.

Lemma trimStart_ws (w s : string) : all_ws w -> trimStart (w +:+ s) = trimStart s.
Proof.
  induction w as [|c w IH]; simpl; [done|].
  intros [-> Hw]%Forall_cons. by apply IH.
Qed.

Lemma trimStart_all_ws (w : string) : all_ws w -> trimStart w = "".
Proof.
  induction w as [|c w IH]; simpl; [done|].
  intros [-> Hw]%Forall_cons. by apply IH.
Qed.

Lemma trimEnd_all_ws (w : string) : all_ws w -> trimEnd w = "".
Proof.
  induction w as [|c w IH]; simpl; [done|].
  intros [-> Hw]%Forall_cons. by rewrite IH.
Qed.

Lemma trimEnd_ws (s w : string) : all_ws w -> trimEnd (s +:+ w) = trimEnd s.
Proof.
  intros Hw. induction s as [|c s IH]; simpl.
  - by apply trimEnd_all_ws.
  - by rewrite IH.
Qed.

Lemma trim_ws_right (s w : string) : all_ws w -> trim (s +:+ w) = trim s.
Proof.
  intros Hw. unfold trim. induction s as [|c s IH]; simpl.
  - by rewrite trimStart_all_ws.
  - destruct (is_ws c); [exact IH|].
    change (String c (s +:+ w)) with (String c s +:+ w). by apply trimEnd_ws.
Qed.

(** White space around a string does not change its trimmed form. *)
Lemma trim_pad (w1 s w2 : string) :
  all_ws w1 -> all_ws w2 -> trim (w1 +:+ s +:+ w2) = trim s.
Proof.
  intros H1 H2. unfold trim. rewrite trimStart_ws by done.
  by apply trim_ws_right.
Qed.

Lemma trimEnd_head (c : ascii) (s : string) :
  is_ws c = false -> exists r, trimEnd (String c s) = String c r.
Proof. intros Hc. simpl. destruct (trimEnd s); rewrite ?Hc; eauto. Qed.

Lemma trimEnd_idem (s : string) : trimEnd (trimEnd s) = trimEnd s.
Proof.
  induction s as [|c s IH]; simpl; [done|].
  destruct (trimEnd s) as [|c' r] eqn:E.
  - destruct (is_ws c) eqn:Hc; simpl; [done|]. by rewrite Hc.
  - simpl in *. by rewrite IH.
Qed.

Lemma trimStart_trimEnd (s : string) :
  trimStart (trimEnd (trimStart s)) = trimEnd (trimStart s).
Proof.
  induction s as [|c s IH]; simpl; [done|].
  destruct (is_ws c) eqn:Hc; [exact IH|].
  destruct (trimEnd_head c s Hc) as [r ->]. simpl. by rewrite Hc.
Qed.

Lemma trim_idem (s : string) : trim (trim s) = trim s.
Proof. unfold trim. by rewrite trimStart_trimEnd, trimEnd_idem. Qed.

End TrimFacts.

Lemma mapEffectToRelation_shared (e : string) :
  mapEffectToRelation e = Shared <->
  JsString.toLowerCase (JsString.trim e) ∉ effectWords.
Proof.
  unfold mapEffectToRelation, effectWords.
  set (k := JsString.toLowerCase (JsString.trim e)).
  rewrite !not_elem_of_cons.
  destruct (String.eqb_spec k "boosts"); [simpl; split; [done | tauto]|].
  destruct (String.eqb_spec k "enhances"); [simpl; split; [done | tauto]|].
  destruct (String.eqb_spec k "inhibits"); [simpl; split; [done | tauto]|].
  destruct (String.eqb_spec k "reduces"); [simpl; split; [done | tauto]|].
  destruct (String.eqb_spec k "blocks"); [simpl; split; [done | tauto]|].
  destruct (String.eqb_spec k "cofactor"); [simpl; split; [done | tauto]|].
  destruct (String.eqb_spec k "supports"); [simpl; split; [done | tauto]|].
  simpl. split; [|done]. intros _. repeat split; try done. inversion 1.
Qed.

(** X5: the relation and the strength of a link depend on the effect and
    on the confidence label only up to letter case and surrounding white
    space: white space around the effect or the label, and a change of
    letter case in the effect or in the label, change neither; an effect is
    "shared" exactly when its trimmed, lower-cased form is none of the
    seven known effect words (the words are compared whole, not
    searched). *)
Theorem link_fields_up_to_case_and_padding (effect conf : string) :
  (forall w1 w2, all_ws w1 -> all_ws w2 ->
     mapEffectToRelation (w1 +:+ effect +:+ w2) = mapEffectToRelation effect /\
     confidenceToNumber (w1 +:+ conf +:+ w2) = confidenceToNumber conf) /\
  (forall effect', JsString.toLowerCase effect' = JsString.toLowerCase effect ->
     mapEffectToRelation effect' = mapEffectToRelation effect) /\
  (forall conf', JsString.toLowerCase conf' = JsString.toLowerCase conf ->
     confidenceToNumber conf' = confidenceToNumber conf) /\
  (mapEffectToRelation effect = Shared <->
     JsString.toLowerCase (JsString.trim effect) ∉ effectWords).
Proof.
  split; [|split; [|split]].
  - intros w1 w2 H1 H2. unfold mapEffectToRelation, confidenceToNumber.
    by rewrite !trim_pad.
  - intros effect' H. unfold mapEffectToRelation.
    by rewrite !toLowerCase_trim, H.
  - intros conf' H. by apply confidenceToNumber_case.
  - apply mapEffectToRelation_shared.
Qed.

Lemma link_fields_up_to_case_and_padding_witness :
  mapEffectToRelation "  Boosts " = mapEffectToRelation "Boosts" /\
  confidenceToNumber "  Moderate-High " = confidenceToNumber "Moderate-High".
Proof.
  apply (proj1 (link_fields_up_to_case_and_padding "Boosts" "Moderate-High") "  " " ");
    repeat constructor.
Defined.

(** X6: the parser stores every field trimmed: trimming a stored field
    again changes nothing. *)
Theorem parsed_fields_are_trimmed (line : string) (e : CsvEdge) :
  parseLine line = Some e ->
  JsString.trim (source e) = source e /\
  JsString.trim (target e) = target e /\
  JsString.trim (effect e) = effect e /\
  JsString.trim (confidence e) = confidence e /\
  JsString.trim (notes e) = notes e.
Proof.
  rewrite parseLine_spec. case_decide; [|discriminate].
  intros [= <-]. unfold edgeOfFields; simpl.
  by rewrite !trim_idem.
Qed.

Lemma parsed_fields_are_trimmed_witness :
  parseLine " a,b ,c,d,  x y " =
    Some {| source := "a"; target := "b"; effect := "c"; confidence := "d";
            notes := "x y" |} /\
  JsString.trim "x y" = "x y".
Proof.
  split; [reflexivity|].
  apply (parsed_fields_are_trimmed " a,b ,c,d,  x y "
           {| source := "a"; target := "b"; effect := "c"; confidence := "d";
              notes := "x y" |} eq_refl).
Defined.

(** * Line endings *)

Section Lines.

Import JsString.

Lemma splitLines_plain (l : string) : no_newline l -> splitLines l = [l].
Proof.
  induction l as [|c l IH]; [done|].
  intros [[Hlf Hcr] Hl]%Forall_cons.
  specialize (IH Hl).
  cbn [splitLines]. rewrite Hlf, Hcr.
  destruct l; cbn [andb]; rewrite ?IH; reflexivity.
Qed.

Lemma splitLines_lf (l rest : string) :
  no_newline l -> splitLines (l +:+ String "010" rest) = l :: splitLines rest.
Proof.
  induction l as [|c l IH]; [done|].
  intros [[Hlf Hcr] Hl]%Forall_cons.
  change (String c l +:+ String "010" rest) with (String c (l +:+ String "010" rest)).
  specialize (IH Hl).
  cbn [splitLines]. rewrite Hlf, Hcr.
  destruct (l +:+ String "010" rest) eqn:E; cbn [andb]; rewrite IH; reflexivity.
Qed.

Lemma splitLines_crlf (l rest : string) :
  no_newline l ->
  splitLines (l +:+ String "013" (String "010" rest)) = l :: splitLines rest.
Proof.
  induction l as [|c l IH]; [done|].
  intros [[Hlf Hcr] Hl]%Forall_cons.
  change (String c l +:+ ?s) with (String c (l +:+ s)).
  specialize (IH Hl).
  cbn [splitLines]. rewrite Hlf, Hcr.
  destruct (l +:+ String "013" (String "010" rest)) eqn:E; cbn [andb];
    rewrite IH; reflexivity.
Qed.

Lemma splitLines_join_lf (ls : list string) :
  Forall no_newline ls -> ls <> [] -> splitLines (join (String "010" "") ls) = ls.
Proof.
  induction ls as [|l ls IH]; [done|].
  intros [Hl Hls]%Forall_cons _. unfold join in *.
  destruct ls as [|l' ls']; [by apply splitLines_plain|].
  change (String.concat (String "010" "") (l :: l' :: ls')) with
    (l +:+ String "010" (String.concat (String "010" "") (l' :: ls'))).
  rewrite splitLines_lf by done. f_equal. by apply IH.
Qed.

Lemma splitLines_join_crlf (ls : list string) :
  Forall no_newline ls -> ls <> [] ->
  splitLines (join (String "013" (String "010" "")) ls) = ls.
Proof.
  induction ls as [|l ls IH]; [done|].
  intros [Hl Hls]%Forall_cons _. unfold join in *.
  destruct ls as [|l' ls']; [by apply splitLines_plain|].
  change (String.concat (String "013" (String "010" "")) (l :: l' :: ls')) with
    (l +:+ String "013" (String "010"
       (String.concat (String "013" (String "010" "")) (l' :: ls')))).
  rewrite splitLines_crlf by done. f_equal. by apply IH.
Qed.

End Lines.

(** X7: a table written with CRLF line ends and the same table written
    with LF line ends are read alike: in both cases the lines of the
    handler are the non-blank lines of the table, in order, and the
    handler gives the same answer. *)
Theorem readLines_line_endings (ls : list string) :
  Forall no_newline ls ->
  readLines (JsString.join (String "013" (String "010" "")) ls) =
    List.filter nonBlank ls /\
  readLines (JsString.join (String "010" "") ls) = List.filter nonBlank ls /\
  GET (Ok (JsString.join (String "013" (String "010" "")) ls)) =
    GET (Ok (JsString.join (String "010" "") ls)).
Proof.
  intros Hls.
  assert (H1 : readLines (JsString.join (String "013" (String "010" "")) ls) =
               List.filter nonBlank ls).
  { unfold readLines. destruct ls as [|l ls']; [done|].
    by rewrite splitLines_join_crlf. }
  assert (H2 : readLines (JsString.join (String "010" "") ls) =
               List.filter nonBlank ls).
  { unfold readLines. destruct ls as [|l ls']; [done|].
    by rewrite splitLines_join_lf. }
  split; [done|]. split; [done|].
  unfold GET, tryGET; simpl. by rewrite H1, H2.
Qed.

Lemma readLines_line_endings_witness :
  readLines (String "h" (String "013" (String "010" (String "013" (String "010" "a,b,c,d,e"))))) =
    ["h"; "a,b,c,d,e"].
Proof.
  apply (proj1 (readLines_line_endings ["h"; ""; "a,b,c,d,e"]
                  ltac:(repeat constructor))).
Defined.

(** * Type and cluster of a node *)

Section TypeAndCluster.

Import JsString.

Lemma prefix_app_l (a b k : string) :
  String.prefix (a +:+ b) k = true -> String.prefix a k = true.
Proof.
  revert k. induction a as [|c a IH]; intros k; [by destruct k|].
  destruct k as [|c' k]; [done|]. simpl.
  destruct (ascii_dec c c'); [apply IH | done].
Qed.

Lemma minerals_inv (k : string) :
  k ∈ MINERALS ->
  k = "iron" \/ k = "zinc" \/ k = "magnesium" \/ k = "calcium" \/
  k = "copper" \/ k = "selenium".
Proof.
  unfold MINERALS. rewrite elem_of_list_to_set, !elem_of_cons, elem_of_nil. tauto.
Qed.

End TypeAndCluster.

(** X8: type and cluster agree: a node of cluster "b-complex" or
    "fat-soluble" is typed "vitamin"; a node typed "mineral" is in cluster
    "iron" when its lower-cased identifier is "iron" and in cluster "other"
    otherwise. *)
Theorem cluster_agrees_with_type (id : string) :
  (clusterOf id = ClusterBComplex \/ clusterOf id = ClusterFatSoluble ->
   classifyNodeType id = Vitamin) /\
  (classifyNodeType id = Mineral ->
   (JsString.toLowerCase id = "iron" /\ clusterOf id = ClusterIron) \/
   (JsString.toLowerCase id <> "iron" /\ clusterOf id = ClusterOther)).
Proof.
  unfold clusterOf, classifyNodeType, JsString.startsWith.
  set (k := JsString.toLowerCase id). split.
  - destruct (_ || _ || _ || _ || _); [intros [|]; discriminate|].
    destruct (String.prefix "vitamin_b" k) eqn:Hb.
    { intros _. by rewrite (prefix_app_l "vitamin_" "b" k Hb). }
    destruct (String.eqb_spec k "vitamin_a") as [->|]; [done|].
    destruct (String.eqb_spec k "vitamin_d") as [->|]; [done|].
    destruct (String.eqb_spec k "vitamin_e") as [->|]; [done|].
    destruct (String.eqb_spec k "vitamin_k") as [->|]; [done|].
    simpl. intros [|]; discriminate.
  - destruct (String.prefix "vitamin_" k); [discriminate|].
    case_bool_decide as Hm; [|by repeat case_match].
    intros _. apply minerals_inv in Hm.
    destruct Hm as [->|[->|[->|[->|[->| ->]]]]];
      [left | right | right | right | right | right]; by split.
Qed.

Lemma cluster_agrees_with_type_witness :
  classifyNodeType "Vitamin_B12" = Vitamin /\
  ((JsString.toLowerCase "Zinc" = "iron" /\ clusterOf "Zinc" = ClusterIron) \/
   (JsString.toLowerCase "Zinc" <> "iron" /\ clusterOf "Zinc" = ClusterOther)).
Proof.
  split.
  - apply (proj1 (cluster_agrees_with_type "Vitamin_B12")). by left.
  - apply (proj2 (cluster_agrees_with_type "Zinc")). reflexivity.
Defined.

(** * Labels and normalized names *)

Section Labels.

Import JsString.

Lemma lower_char_underscore (c : ascii) :
  Ascii.eqb (lower_char c) "_" = Ascii.eqb c "_".
Proof. destruct c as [[] [] [] [] [] [] [] []]; reflexivity. Qed.

Lemma lower_char_replaced (c : ascii) :
  lower_char (if Ascii.eqb c "_" then " "%char else c) =
  (if Ascii.eqb (lower_char c) "_" then " "%char else lower_char c).
Proof. destruct c as [[] [] [] [] [] [] [] []]; reflexivity. Qed.

Lemma toLowerCase_replaceUnderscores (s : string) :
  toLowerCase (replaceUnderscores s) = replaceUnderscores (toLowerCase s).
Proof.
  induction s as [|c s IH]; simpl; [done|]. by rewrite lower_char_replaced, IH.
Qed.

Lemma plainId_toLowerCase (s : string) : plainId (toLowerCase s) = plainId s.
Proof.
  induction s as [|c s IH]; simpl; [done|].
  rewrite is_ws_lower_char, lower_char_underscore, IH.
  destruct s; simpl; by rewrite ?lower_char_underscore.
Qed.

Lemma replaceWsRuns_label (t : string) : forall in_run : bool,
  plainId t = true ->
  (in_run = true -> startsWithUnderscore t = false) ->
  replaceWsRuns in_run (replaceUnderscores t) = t.
Proof.
  induction t as [|c t IH]; intros in_run Hp Hrun; simpl in *; [done|].
  apply andb_true_iff in Hp as [[Hws Hdbl]%andb_true_iff Hp].
  apply negb_true_iff in Hws, Hdbl.
  destruct (Ascii.eqb_spec c "_") as [->|Hc].
  - simpl in *. destruct in_run; [by specialize (Hrun eq_refl)|].
    f_equal. by apply IH.
  - rewrite Hws. f_equal. apply IH; [done | discriminate].
Qed.

End Labels.

(** X9: for an identifier without white space and without two underscores
    in a row, the label built by the graph route normalizes back to the
    normalized identifier, which is the lower-cased identifier: for such a
    node the label test of the highlighter never adds a match to the id
    test. *)
Theorem label_normalizes_to_id (s : string) :
  plainId s = true ->
  normalizeId (JsString.replaceUnderscores s) = normalizeId s /\
  normalizeId s = JsString.toLowerCase s.
Proof.
  intros Hp. unfold normalizeId.
  rewrite <- plainId_toLowerCase in Hp.
  assert (Hid : JsString.replaceWsRuns false (JsString.toLowerCase s) =
                JsString.toLowerCase s).
  { clear -Hp. revert Hp. generalize (JsString.toLowerCase s) as t.
    induction t as [|c t IH]; simpl; [done|].
    intros [[Hws _]%andb_true_iff Hp]%andb_true_iff.
    apply negb_true_iff in Hws. rewrite Hws. f_equal. by apply IH. }
  split; [|exact Hid].
  rewrite Hid, toLowerCase_replaceUnderscores.
  by apply replaceWsRuns_label.
Qed.

Lemma label_normalizes_to_id_witness :
  normalizeId (JsString.replaceUnderscores "Vitamin_B12") = normalizeId "Vitamin_B12" /\
  normalizeId "Vitamin_B12" = "vitamin_b12".
Proof. apply (label_normalizes_to_id "Vitamin_B12"). reflexivity. Defined.

(** * Further properties of the recommendations *)

Section Summary.

Implicit Types (c : MarkerClassification) (cs : list MarkerClassification).

Lemma count_status_zero (st : Status) cs :
  count_status st cs = 0 <-> forall c, c ∈ cs -> status c <> st.
Proof.
  unfold count_status. rewrite length_zero_iff_nil. split.
  - intros Hnil c Hc Hst. by apply (filter_nil_not_elem_of _ _ c Hnil).
  - intros Hall. induction cs as [|c cs IH]; [done|].
    rewrite filter_cons. case_decide as Hst.
    + exfalso. apply (Hall c); [left | done].
    + apply IH. intros c' Hc'. apply Hall. by right.
Qed.

Lemma summarize_unfold cs :
  summarize cs =
    let l := count_status StLow cs in
    let h := count_status StHigh cs in
    match l, h with
    | 0, 0 => SUMMARY_ALL_NORMAL
    | S _, 0 =>
        "Detected " +:+ (pretty l +:+ " low") +:+ " marker" +:+
        (if (1 <? l)%nat then "s" else "") +:+
        ". Prioritize follow-up with your provider."
    | 0, S _ =>
        "Detected " +:+ (pretty h +:+ " high") +:+ " marker" +:+
        (if (1 <? h)%nat then "s" else "") +:+
        ". Prioritize follow-up with your provider."
    | S _, S _ =>
        "Detected " +:+ ((pretty l +:+ " low") +:+ " and " +:+ (pretty h +:+ " high")) +:+
        " markers. Prioritize follow-up with your provider."
    end.
Proof.
  unfold summarize. cbv zeta.
  destruct (count_status StLow cs) as [|l], (count_status StHigh cs) as [|h];
    try reflexivity.
  - rewrite Nat.add_0_r. reflexivity.
  - replace (1 <? S l + S h)%nat with true; [reflexivity|].
    symmetry. apply Nat.ltb_lt. lia.
Qed.

End Summary.

(** X10: the summary is the sentence "All submitted markers are currently
    within the reference range." exactly when no marker is low or high, so
    also when markers are "unknown"; otherwise it reports the number of low
    markers, then the number of high markers, joined by "and" when both
    occur, with "markers" in the plural exactly when the two numbers sum to
    more than one. *)
Theorem summarize_counts (cs : list MarkerClassification) :
  let l := count_status StLow cs in
  let h := count_status StHigh cs in
  (summarize cs = SUMMARY_ALL_NORMAL <->
     forall c, c ∈ cs -> status c = StNormal \/ status c = StUnknown) /\
  (0 < l -> h = 0 ->
     summarize cs =
       "Detected " +:+ (pretty l +:+ " low") +:+ " marker" +:+
       (if (1 <? l + h)%nat then "s" else "") +:+
       ". Prioritize follow-up with your provider.") /\
  (l = 0 -> 0 < h ->
     summarize cs =
       "Detected " +:+ (pretty h +:+ " high") +:+ " marker" +:+
       (if (1 <? l + h)%nat then "s" else "") +:+
       ". Prioritize follow-up with your provider.") /\
  (0 < l -> 0 < h ->
     summarize cs =
       "Detected " +:+ ((pretty l +:+ " low") +:+ " and " +:+ (pretty h +:+ " high")) +:+
       " marker" +:+ (if (1 <? l + h)%nat then "s" else "") +:+
       ". Prioritize follow-up with your provider.").
Proof.
  intros l h. rewrite summarize_unfold. fold l h. cbv zeta.
  pose proof (count_status_zero StLow cs) as Hl.
  pose proof (count_status_zero StHigh cs) as Hh.
  fold l in Hl. fold h in Hh.
  split; [|split; [|split]].
  - split.
    + intros Hs c Hc.
      destruct l as [|l'], h as [|h']; try discriminate Hs.
      pose proof (proj1 Hl eq_refl c Hc). pose proof (proj1 Hh eq_refl c Hc).
      destruct (status c); tauto.
    + intros Hall.
      assert (l = 0) as ->.
      { apply Hl. intros c Hc. destruct (Hall c Hc) as [-> | ->]; discriminate. }
      assert (h = 0) as ->; [|reflexivity].
      apply Hh. intros c Hc. destruct (Hall c Hc) as [-> | ->]; discriminate.
  - intros Hpos ->. destruct l as [|l']; [lia|]. by rewrite Nat.add_0_r.
  - intros -> Hpos. destruct h as [|h']; [lia|]. reflexivity.
  - intros Hlpos Hhpos. destruct l as [|l'], h as [|h']; try lia.
    replace (1 <? S l' + S h')%nat with true; [reflexivity|].
    symmetry. apply Nat.ltb_lt. lia.
Qed.

Lemma summarize_counts_witness :
  summarize
    [ {| marker := "ferritin"; value := None; status := StUnknown; note := "" |} ] =
    SUMMARY_ALL_NORMAL.
Proof.
  apply (proj1 (summarize_counts _)).
  intros c Hc. apply list_elem_of_singleton in Hc as ->. by right.
Defined.

Section Notes.

Lemma lookupNote_text (m : string) (st : Status) (n : string) :
  lookupNote m st = Some n -> (st = StLow \/ st = StHigh) /\ n ∈ noteTexts.
Proof.
  unfold lookupNote. destruct (NOTES !! m) as [entry|] eqn:E; [|discriminate].
  intros Hn. split; [destruct st; try discriminate; auto|].
  apply elem_of_list_to_map_2 in E.
  repeat (apply elem_of_cons in E as [E | E];
          [ injection E as -> ->; destruct st; try discriminate Hn;
            injection Hn as <-; apply (bool_decide_unpack _); vm_compute; reflexivity | ]).
  inversion E.
Qed.

Lemma noteTexts_fresh :
  (NOTE_NORMAL ∉ noteTexts) /\ (NOTE_NO_REFERENCE ∉ noteTexts).
Proof. split; apply (bool_decide_unpack _); vm_compute; reflexivity. Qed.

End Notes.

(** X11: the note tells the status apart: in [buildRecommendations] a
    marker gets the note "Within the reference range; continue current
    support." exactly when its status is "normal"; a marker that is
    "unknown" always gets "No reference available for this marker."; and
    any other note is a text of [NOTES], given to a "low" or "high" marker
    only. *)
Theorem note_reflects_status (m : string) (v : option number) :
  let c := classifyEntry (m, v) in
  (note c = NOTE_NORMAL <-> status c = StNormal) /\
  (status c = StUnknown -> note c = NOTE_NO_REFERENCE) /\
  (note c <> NOTE_NORMAL -> note c <> NOTE_NO_REFERENCE ->
   note c ∈ noteTexts /\ (status c = StLow \/ status c = StHigh)).
Proof.
  intros c. subst c.
  destruct (classifyEntry_fields m v) as (_ & _ & Hst). rewrite Hst.
  rewrite classifyEntry_note.
  destruct noteTexts_fresh as [Hfn Hfr].
  destruct (lookupNote m (classifyValue m v)) as [n|] eqn:E.
  - apply lookupNote_text in E as [Hlh Hn].
    split; [|split].
    + split; [intros -> | intros Hnorm]; [done|].
      rewrite Hnorm in Hlh. by destruct Hlh.
    + intros Hu. rewrite Hu in Hlh. by destruct Hlh.
    + done.
  - destruct (classifyValue m v); (split; [|split]); try done.
Qed.

Lemma note_reflects_status_witness :
  note (classifyEntry ("calcium", None)) = NOTE_NO_REFERENCE.
Proof.
  apply (proj1 (proj2 (note_reflects_status "calcium" None))). reflexivity.
Defined.

(** X12: summary and schedule treat "unknown" differently.  When every
    submitted marker is "normal" or "unknown" and at least one is
    "unknown", the summary says that all markers are within the reference
    range while the practitioner review is due "Within 2 weeks". *)
Theorem unknown_marker_summary_and_review (values : list (string * option number)) :
  (forall m v, (m, v) ∈ values ->
     classifyValue m v = StNormal \/ classifyValue m v = StUnknown) ->
  (exists m v, (m, v) ∈ values /\ classifyValue m v = StUnknown) ->
  summary (buildRecommendations values) = SUMMARY_ALL_NORMAL /\
  exists review,
    schedule (buildRecommendations values) !! 1%nat = Some review /\
    title review = "Practitioner Review" /\
    timeframe review = "Within 2 weeks".
Proof.
  intros Hall (m & v & Hin & Hu). unfold buildRecommendations; simpl. split.
  - rewrite summarize_unfold. cbv zeta.
    assert (count_status StLow (map classifyEntry values) = 0) as ->.
    { apply count_status_zero. intros c Hc.
      change (map classifyEntry values) with (classifyEntry <$> values) in Hc.
      apply list_elem_of_fmap in Hc as ([m' v'] & -> & Hin').
      simpl. destruct (Hall _ _ Hin') as [-> | ->]; discriminate. }
    assert (count_status StHigh (map classifyEntry values) = 0) as ->; [|reflexivity].
    apply count_status_zero. intros c Hc.
    change (map classifyEntry values) with (classifyEntry <$> values) in Hc.
    apply list_elem_of_fmap in Hc as ([m' v'] & -> & Hin').
    simpl. destruct (Hall _ _ Hin') as [-> | ->]; discriminate.
  - rewrite buildSchedule_unfold. eexists. split; [reflexivity|]. split; [reflexivity|].
    simpl.
    assert (Hpos : (0 <? length (filter (fun c => status c <> StNormal)
                                  (map classifyEntry values)))%nat = true).
    { apply followUps_pos. exists (classifyEntry (m, v)). split.
      - apply (list_elem_of_fmap_2 classifyEntry) in Hin. exact Hin.
      - simpl. rewrite Hu. discriminate. }
    by rewrite Hpos.
Qed.

Lemma unknown_marker_summary_and_review_witness :
  summary (buildRecommendations [("Hemoglobin", Some (Finite 13)); ("vitamin_D", None)]) =
    SUMMARY_ALL_NORMAL.
Proof.
  apply (unknown_marker_summary_and_review
           [("Hemoglobin", Some (Finite 13)); ("vitamin_D", None)]).
  - intros m v Hin. apply elem_of_cons in Hin as [[= -> ->]|Hin]; [by left|].
    apply list_elem_of_singleton in Hin as [= -> ->]. by right.
  - exists "vitamin_D", None. split; [right; left | reflexivity].
Defined.

(** * Further properties of the highlighter *)

(** X13: the highlight set only holds identifiers of nodes; it depends on
    the names as a set (order, repetition and the list a name comes from do
    not matter); it is the union of what each list highlights; and it is
    empty without names. *)
Theorem highlightedIds_names (nodes : list Node) (d h : list string) :
  (forall x, x ∈ highlightedIds nodes d h -> x ∈ map id nodes) /\
  (forall d' h', (forall name, name ∈ d ++ h <-> name ∈ d' ++ h') ->
     highlightedIds nodes d' h' = highlightedIds nodes d h) /\
  highlightedIds nodes h d = highlightedIds nodes d h /\
  highlightedIds nodes d h = highlightedIds nodes d [] ∪ highlightedIds nodes [] h /\
  highlightedIds nodes [] [] = ∅.
Proof.
  assert (Hext : forall d1 h1 d2 h2,
            (forall name, name ∈ d1 ++ h1 <-> name ∈ d2 ++ h2) ->
            highlightedIds nodes d2 h2 = highlightedIds nodes d1 h1).
  { intros d1 h1 d2 h2 Hsame. apply set_eq. intros x.
    rewrite !highlightedIds_elem. unfold named.
    split; intros (n & Hn & Hid & name & Hname & Hm); exists n;
      (split; [done|]); (split; [done|]); exists name; (split; [|done]);
      rewrite <- elem_of_app in *; by apply Hsame. }
  split; [|split; [|split; [|split]]].
  - intros x (n & Hn & <- & _)%highlightedIds_elem.
    apply (list_elem_of_fmap_2 id) in Hn. exact Hn.
  - intros d' h'. apply Hext.
  - apply Hext. intros name. rewrite !elem_of_app. tauto.
  - apply set_eq. intros x. rewrite elem_of_union, !highlightedIds_elem. unfold named.
    split.
    + intros (n & Hn & Hid & name & [Hd|Hh] & Hm); [left | right];
        exists n; (split; [done|]); (split; [done|]); exists name; split; auto.
    + intros [(n & Hn & Hid & name & [Hd|Hh] & Hm)|(n & Hn & Hid & name & [Hd|Hh] & Hm)];
        try (by inversion Hd); try (by inversion Hh);
        exists n; (split; [done|]); (split; [done|]); exists name; split; auto.
  - apply set_eq. intros x. rewrite highlightedIds_elem. unfold named.
    split; [|set_solver].
    intros (n & _ & _ & name & [Hd|Hh] & _); [inversion Hd | inversion Hh].
Qed.

Lemma highlightedIds_names_witness :
  highlightedIds vitaminDAndCalcium ["Calcium"; "Calcium"] ["vitamin D"] =
  highlightedIds vitaminDAndCalcium ["vitamin D"] ["Calcium"].
Proof.
  apply (proj1 (proj2 (highlightedIds_names vitaminDAndCalcium ["vitamin D"] ["Calcium"]))).
  intros name. rewrite !elem_of_app, !elem_of_cons, !elem_of_nil. tauto.
Defined.

Section Snapshot.

Lemma elem_of_deficiencies (result : ReportResponse) (now : Z) (m : string) :
  m ∈ deficiencies (recommendationSnapshot result now) <->
  exists status, (m, status) ∈ default [] (labels result) /\
    status <> "" /\ status <> "normal" /\ status <> "unknown".
Proof.
  unfold recommendationSnapshot; simpl.
  change (map fst ?l) with (fst <$> l). rewrite list_elem_of_fmap.
  split.
  - intros ([m' st] & -> & Hin). apply list_elem_of_In, filter_In in Hin as [Hin Hf].
    exists st. split; [by apply list_elem_of_In|].
    unfold isFlaggedStatus in Hf. simpl in Hf.
    apply andb_true_iff in Hf as [[H1 H2]%andb_true_iff H3].
    apply negb_true_iff, String.eqb_neq in H1, H2, H3. done.
  - intros (st & Hin & H1 & H2 & H3). exists (m, st). split; [done|].
    apply list_elem_of_In, filter_In. split; [by apply list_elem_of_In|].
    unfold isFlaggedStatus. simpl.
    apply String.eqb_neq in H1, H2, H3. by rewrite H1, H2, H3.
Qed.

End Snapshot.

(** X14: the snapshot lists as deficiencies the markers whose label is
    neither empty, "normal" nor "unknown", so the markers labelled "high"
    as well as those labelled "low", in the order of the labels; with the
    name lists of the snapshot, the highlighter marks a node exactly when
    its normalized id or label is the normalization of such a marker or of
    a high-risk micronutrient of the report. *)
Theorem snapshot_highlights (result : ReportResponse) (now : Z) (nodes : list Node) :
  let snap := recommendationSnapshot result now in
  let flaggedMarker name :=
    exists status, (name, status) ∈ default [] (labels result) /\
      status <> "" /\ status <> "normal" /\ status <> "unknown" in
  let riskName name :=
    exists profile ms r,
      risk_profile result = Some profile /\
      high_risk_micronutrients profile = Some ms /\
      r ∈ ms /\ micronutrient r = name in
  (forall name, name ∈ deficiencies snap <-> flaggedMarker name) /\
  (forall m, (m, "high") ∈ default [] (labels result) -> m ∈ deficiencies snap) /\
  (forall name, name ∈ highRisk snap <-> riskName name) /\
  (forall x, x ∈ highlightedIds nodes (deficiencies snap) (highRisk snap) <->
     exists n name, n ∈ nodes /\ id n = x /\
       (flaggedMarker name \/ riskName name) /\
       (normalizeId (id n) = normalizeId name \/
        normalizeId (label n) = normalizeId name)).
Proof.
  intros snap flaggedMarker riskName.
  assert (Hd : forall name, name ∈ deficiencies snap <-> flaggedMarker name)
    by (intros; apply elem_of_deficiencies).
  assert (Hr : forall name, name ∈ highRisk snap <-> riskName name).
  { intros name. subst snap riskName. unfold recommendationSnapshot; simpl.
    destruct (risk_profile result) as [profile|].
    - destruct (high_risk_micronutrients profile) as [ms|] eqn:E.
      + change (map micronutrient ms) with (micronutrient <$> ms).
        rewrite list_elem_of_fmap. split.
        * intros (r & -> & Hin). by exists profile, ms, r.
        * intros (p' & ms' & r & [= <-] & Hms & Hin & <-).
          rewrite E in Hms. injection Hms as <-. by exists r.
      + split; [inversion 1|]. intros (p' & ms' & r & [= <-] & Hms & _). congruence.
    - split; [inversion 1|]. by intros (p' & ms' & r & [=] & _). }
  split; [exact Hd|]. split; [|split; [exact Hr|]].
  - intros m Hin. apply Hd. exists "high". by repeat split.
  - intros x. rewrite highlightedIds_elem. unfold named. split.
    + intros (n & Hn & Hid & name & Hname & Hm). exists n, name.
      rewrite Hd, Hr in Hname. done.
    + intros (n & name & Hn & Hid & Hname & Hm). exists n.
      split; [done|]. split; [done|]. exists name. rewrite Hd, Hr. done.
Qed.

Section Flagged.

Lemma flagged_fold (l : list string) : forall done : list string,
  fold_left setAdd l (firstOccurrences done) = firstOccurrences (done ++ l).
Proof.
  induction l as [|x l IH]; intros done; simpl; [by rewrite app_nil_r|].
  replace (done ++ x :: l) with ((done ++ [x]) ++ l) by by rewrite <- app_assoc.
  rewrite <- IH. f_equal. unfold setAdd, push.
  rewrite firstOccurrences_snoc.
  case_bool_decide as H1; case_decide as H2; try reflexivity; exfalso.
  - apply H2. by apply elem_of_firstOccurrences.
  - apply H1. by apply elem_of_firstOccurrences.
Qed.

End Flagged.

(** X15: the list [flagged] that the component keeps holds the names of
    the two lists without repetition, each at the place of its first
    occurrence, deficiencies first.  The panel shows one label per flagged
    name, in that order: the name with every underscore replaced by a
    space; two distinct flagged names can therefore show the same label,
    as vitamin_D and vitamin D do. *)
Theorem flagged_first_occurrences (d h : list string) :
  flagged d h = firstOccurrences (d ++ h) /\
  NoDup (flagged d h) /\
  (forall name, name ∈ flagged d h <-> name ∈ d \/ name ∈ h) /\
  flaggedLabels d h = map JsString.replaceUnderscores (firstOccurrences (d ++ h)) /\
  length (flaggedLabels d h) = length (flagged d h) /\
  flagged ["vitamin_D"] ["vitamin D"] = ["vitamin_D"; "vitamin D"] /\
  flaggedLabels ["vitamin_D"] ["vitamin D"] = ["vitamin D"; "vitamin D"].
Proof.
  assert (H : flagged d h = firstOccurrences (d ++ h)).
  { unfold flagged. apply (flagged_fold (d ++ h) []). }
  unfold flaggedLabels at 1 2. rewrite length_map, H.
  split; [done|]. split; [|split; [|split; [done|split; [done|split; reflexivity]]]].
  - unfold firstOccurrences. apply NoDup_ListNoDup, NoDup_rev, NoDup_ListNoDup.
    apply NoDup_remove_dups.
  - intros name. by rewrite elem_of_firstOccurrences, elem_of_app.
Qed.

(** * Node sizes *)

Section Sizes.

Lemma maxQ_spec (a b : Q) : (a <= maxQ a b /\ b <= maxQ a b)%Q /\ (maxQ a b = a \/ maxQ a b = b).
Proof.
  unfold maxQ. destruct (Qle_bool a b) eqn:E.
  - apply Qle_bool_iff in E. split; [split; [done | apply Qle_refl] | by right].
  - split; [split; [apply Qle_refl|] | by left].
    apply Qlt_le_weak, Qnot_le_lt. rewrite <- Qle_bool_iff. by rewrite E.
Qed.

Lemma metricOf_unit (edges : list CsvEdge) (nodeSet : NodeSet) (links : list Link)
    (n : Node) (metric : SizeMetric) :
  visitEdges [] [] edges = Ok (nodeSet, links) ->
  n ∈ buildNodes nodeSet ->
  (0 <= metricOf metric n <= 1)%Q.
Proof.
  intros Hv Hn. pose proof (visitEdges_consistent _ _ _ Hv) as [Hc _].
  destruct (buildNodes_inv _ _ _ Hc Hn) as (k & Hk & Hin & ->).
  destruct metric; simpl.
  - apply ratio_unit; [|apply maxDegree_pos].
    by apply (degree_le_maxDegree nodeSet k (accOf k edges)).
  - destruct (JsString.includes k "anemia"); split; discriminate.
  - apply (makeNode_confidence_unit (maxDegree nodeSet) k edges).
Qed.

End Sizes.

(** X16: for every node of the graph route and every size metric, the node
    value lies between 5 and 17 when the node is not highlighted and is
    exactly 6 more when it is, hence at most 23; the sphere radius is at
    least 1.5 and below 3.5. *)
Theorem node_sizes_bounded
    (edges : list CsvEdge) (nodeSet : NodeSet) (links : list Link)
    (n : Node) (metric : SizeMetric) (highlighted : gset string) :
  visitEdges [] [] edges = Ok (nodeSet, links) ->
  n ∈ buildNodes nodeSet ->
  (5 <= nodeValue ∅ metric n <= 17)%Q /\
  (id n ∈ highlighted -> nodeValue highlighted metric n = (nodeValue ∅ metric n + 6)%Q) /\
  (id n ∉ highlighted -> nodeValue highlighted metric n = nodeValue ∅ metric n) /\
  (5 <= nodeValue highlighted metric n <= 23)%Q /\
  (1.5 <= sphereRadius metric n < 3.5)%Q.
Proof.
  intros Hv Hn. pose proof (metricOf_unit _ _ _ _ metric Hv Hn) as [H0 H1].
  unfold nodeValue, sphereRadius. cbv zeta.
  rewrite (bool_decide_eq_false_2 (id n ∈ (∅ : gset string))) by set_solver.
  set (x := metricOf metric n) in *.
  split; [split; lra|]. split; [|split; [|split]].
  - intros Hh. by rewrite bool_decide_eq_true_2.
  - intros Hh. by rewrite bool_decide_eq_false_2.
  - case_bool_decide; split; lra.
  - destruct (maxQ_spec ((5 + 12 * x) * 0.2) 1.5) as [[Ha Hb] [E | E]];
      rewrite E in Ha, Hb |- *; split; lra.
Qed.

Lemma node_sizes_bounded_witness :
  exists nodeSet links n,
    visitEdges [] [] ironHighLow = Ok (nodeSet, links) /\
    n ∈ buildNodes nodeSet /\
    (1.5 <= sphereRadius ByRisk n < 3.5)%Q.
Proof.
  eexists _, _, _. split; [reflexivity|]. split; [left|].
  eapply (node_sizes_bounded ironHighLow _ _ _ ByRisk ∅); [reflexivity | left].
Defined.

(** * Validation of the lab inputs *)

Section ValidatorFacts.

Variable Number : string -> number.

Lemma num_le_finite (x y : Q) : num_le (Finite x) (Finite y) = true <-> (x <= y)%Q.
Proof. apply Qle_bool_iff. Qed.

Lemma transformField_None (input : FieldInput) :
  transformField Number input = None <-> notMeasured input.
Proof.
  destruct input as [s|n| |]; simpl; try done.
  destruct (String.eqb_spec (JsString.trim s) ""); split; done.
Qed.

(** The transformed value is never an infinity. *)
Lemma transformField_not_infinite (input : FieldInput) (b : bool) :
  transformField Number input <> Some (Infinity b).
Proof.
  destruct input as [s|n| |]; simpl; try done.
  - destruct (String.eqb _ _); [done|]. by destruct (Number _).
  - by destruct n.
Qed.

Lemma fieldAccepted_finite (min max : option number) (input : FieldInput) :
  fieldAccepted Number min max input = true ->
  transformField Number input = None \/
  exists q, transformField Number input = Some (Finite q) /\
    (forall mn, min = Some (Finite mn) -> (mn <= q)%Q) /\
    (forall mx, max = Some (Finite mx) -> (q <= mx)%Q).
Proof.
  unfold fieldAccepted.
  pose proof (transformField_not_infinite input) as Hinf.
  destruct (transformField Number input) as [[|b|q]|]; simpl; [done| |  |by left].
  - by destruct (Hinf b).
  - intros [Hmin Hmax]%andb_true_iff. right. exists q. split; [done|]. split.
    + intros mn ->. simpl in Hmin. by apply Qle_bool_iff.
    + intros mx ->. simpl in Hmax. by apply Qle_bool_iff.
Qed.

End ValidatorFacts.

(** X17: whatever the input (string, number, null or undefined) and
    whatever the string conversion, a value accepted by a numeric field is
    either absent, which happens exactly for null, undefined and blank
    strings, or a finite number within the bounds of the field; NaN and the
    infinities are never accepted, and an accepted number input is kept
    unchanged. *)
Theorem accepted_values_are_finite
    (Number : string -> number) (min max : option number) (input : FieldInput) :
  fieldAccepted Number min max input = true ->
  (transformField Number input = None <-> notMeasured input) /\
  (transformField Number input = None \/
   exists q, transformField Number input = Some (Finite q) /\
     (forall mn, min = Some (Finite mn) -> (mn <= q)%Q) /\
     (forall mx, max = Some (Finite mx) -> (q <= mx)%Q)) /\
  (forall n, input = InNumber n ->
     isFinite n = true /\ transformField Number input = Some n).
Proof.
  intros Hacc. split; [apply transformField_None|]. split.
  - by apply fieldAccepted_finite.
  - intros n ->. unfold fieldAccepted in Hacc. simpl in *.
    destruct n as [|b|q]; simpl in *; done.
Qed.

Lemma accepted_values_are_finite_witness :
  transformField (fun _ => NaN) (InNumber (Finite 13.5)) = Some (Finite 13.5).
Proof.
  apply (proj2 (proj2 (accepted_values_are_finite (fun _ => NaN)
                         (Some (Finite 0)) (Some (Finite 25))
                         (InNumber (Finite 13.5)) eq_refl)) (Finite 13.5) eq_refl).
Defined.

Section SchemaFacts.

Lemma labSchema_ranges (key : string) (spec : FieldSpec) :
  (key, spec) ∈ labSchema ->
  exists mn mx l h,
    field_min spec = Some (Finite mn) /\ field_max spec = Some (Finite mx) /\
    REF !! key = Some (range l h) /\
    (mn <= l)%Q /\ (l < h)%Q /\ (h <= mx)%Q.
Proof.
  unfold labSchema. intros Hin.
  repeat (apply elem_of_cons in Hin as [Hin | Hin];
          [ injection Hin as -> ->; eexists _, _, _, _;
            split; [reflexivity|]; split; [reflexivity|]; split; [reflexivity|];
            repeat split; discriminate | ]).
  inversion Hin.
Qed.

End SchemaFacts.

(** X18: every field of the lab schema has a reference range, and the
    range lies within the bounds of the field.  For an accepted input of
    such a field the classifier answers "unknown" exactly when the input is
    not measured (null, undefined or a blank string); any other accepted
    input is classified "low", "normal" or "high" by comparison with the
    range. *)
Theorem validated_input_classification
    (Number : string -> number) (key : string) (spec : FieldSpec) (input : FieldInput) :
  (key, spec) ∈ labSchema ->
  fieldAccepted Number (field_min spec) (field_max spec) input = true ->
  let v := transformField Number input in
  (exists l h mn mx,
     REF !! key = Some (range l h) /\
     field_min spec = Some (Finite mn) /\ field_max spec = Some (Finite mx) /\
     (mn <= l)%Q /\ (l < h)%Q /\ (h <= mx)%Q /\
     (forall q, v = Some (Finite q) ->
        classifyValue key v =
          if Qlt_bool q l then StLow else if Qlt_bool h q then StHigh else StNormal)) /\
  (classifyValue key v = StUnknown <-> notMeasured input).
Proof.
  intros Hin Hacc v. subst v.
  destruct (labSchema_ranges _ _ Hin) as (mn & mx & l & h & Hmin & Hmax & Href & H1 & H2 & H3).
  assert (Hq : forall q, transformField Number input = Some (Finite q) ->
            classifyValue key (transformField Number input) =
              if Qlt_bool q l then StLow else if Qlt_bool h q then StHigh else StNormal).
  { intros q ->. by rewrite (classifyValue_compare _ _ _ Href). }
  split.
  - exists l, h, mn, mx. done.
  - rewrite <- (transformField_None Number).
    destruct (fieldAccepted_finite Number _ _ _ Hacc) as [Hnone|(q & Hv & _)].
    + rewrite Hnone. done.
    + rewrite (Hq q Hv), Hv.
      split; [|discriminate].
      destruct (Qlt_bool q l); [discriminate|]. destruct (Qlt_bool h q); discriminate.
Qed.

Lemma validated_input_classification_witness :
  classifyValue "ferritin" (transformField (fun _ => Finite 10) (InString " 10 ")) = StUnknown <->
  notMeasured (InString " 10 ").
Proof.
  apply (validated_input_classification (fun _ => Finite 10) "ferritin"
           (numericField "Ferritin" 0 500) (InString " 10 ")).
  - right; right; left.
  - reflexivity.
Defined.

(** * Route protection *)

Section Middleware.

Lemma prefix_spec (a k : string) :
  String.prefix a k = true <-> exists rest, k = a +:+ rest.
Proof.
  revert k. induction a as [|c a IH]; intros k.
  - split; [intros _; by exists k | by destruct k].
  - destruct k as [|c' k]; simpl.
    + split; [discriminate | by intros [rest [=]]].
    + destruct (ascii_dec c c') as [->|Hne].
      * rewrite IH. split; intros [rest H]; exists rest; [by rewrite H | by injection H].
      * split; [discriminate | intros [rest [= ? _]]; done].
Qed.

Lemma isProtected_spec (pathname : string) :
  isProtected pathname = true <->
  exists route rest, route ∈ protectedRoutes /\ pathname = route +:+ rest.
Proof.
  unfold isProtected. rewrite some_spec. unfold JsString.startsWith.
  split.
  - intros (route & Hin & [rest ->]%prefix_spec). by exists route, rest.
  - intros (route & rest & Hin & ->). exists route. split; [done|].
    apply prefix_spec. by exists rest.
Qed.

Lemma string_app_assoc (a b c : string) : (a +:+ b) +:+ c = a +:+ (b +:+ c).
Proof.
  induction a as [|x a IH]; [done|].
  change (String x ((a +:+ b) +:+ c) = String x (a +:+ (b +:+ c))). by f_equal.
Qed.

End Middleware.

(** X19: a request passes the middleware exactly when its path starts with
    none of "/dashboard", "/profile", "/labs", or when it carries a token;
    otherwise it is redirected to "/sign-in" with the requested path as
    callback.  Every path that extends a protected path is protected, and
    the sign-in path is not, so a redirected request is not redirected
    again. *)
Theorem middleware_guard (pathname : string) (token : option JWT) :
  (middleware pathname token = PassThrough <->
     isProtected pathname = false \/ is_Some token) /\
  (middleware pathname token <> PassThrough ->
     middleware pathname token = RedirectTo "/sign-in" pathname) /\
  (forall path callbackUrl,
     middleware pathname token = RedirectTo path callbackUrl ->
     middleware path None = PassThrough) /\
  (isProtected pathname = true <->
     exists route rest, route ∈ protectedRoutes /\ pathname = route +:+ rest) /\
  (forall suffix, isProtected pathname = true ->
     isProtected (pathname +:+ suffix) = true).
Proof.
  unfold middleware.
  split; [|split; [|split; [|split]]].
  - destruct (isProtected pathname), token as [t|]; simpl; split; try done.
    + intros _. right. by eexists.
    + intros [|[? ?]]; done.
    + intros _. by left.
    + intros _. by left.
  - by destruct (isProtected pathname), token as [t|].
  - destruct (isProtected pathname), token as [t|]; simpl; try done.
    by intros path cb [= <- _].
  - apply isProtected_spec.
  - intros suffix (route & rest & Hin & ->)%isProtected_spec.
    apply isProtected_spec. exists route, (rest +:+ suffix).
    split; [done | apply string_app_assoc].
Qed.

Lemma middleware_guard_witness :
  middleware "/labs/new" None = RedirectTo "/sign-in" "/labs/new" /\
  isProtected ("/labs" +:+ "-archive") = true.
Proof.
  split.
  - apply (proj1 (proj2 (middleware_guard "/labs/new" None))). discriminate.
  - apply (proj2 (proj2 (proj2 (proj2 (middleware_guard "/labs" None))))). reflexivity.
Defined.

(** * Deleting a lab entry *)



(** * The report route *)



Section StoredData.

Implicit Types (entries : list (string * Json)) (k : string) (n : number).

Lemma numericEntries_fold entries : forall (acc : gmap string number) k n,
  NoDup (map fst entries) ->
  fold_left
    (fun (labData : gmap string number) entry =>
       match snd entry with
       | JNumber n => if isNaN n then labData else <[fst entry := n]> labData
       | _ => labData
       end) entries acc !! k = Some n <->
  numericAt entries k n \/
  ((forall n', ~ numericAt entries k n') /\ acc !! k = Some n).
Proof.
  induction entries as [|[k0 v0] entries IH]; intros acc k n Hnd; simpl.
  - unfold numericAt. split; [intros H; right; split; [|done] | intros [[H _]|[_ H]]; [|done]].
    + intros n' [H' _]. inversion H'.
    + inversion H.
  - apply NoDup_cons in Hnd as [Hk0 Hnd].
    rewrite IH by done. clear IH. unfold numericAt.
    assert (Hfresh : forall v, (k0, v) ∈ entries -> False).
    { intros v Hin. apply Hk0. apply (list_elem_of_fmap_2 fst) in Hin. exact Hin. }
    setoid_rewrite elem_of_cons.
    destruct v0 as [| |n0| | |]; simpl;
      try (split; [intros [[H1 H2]|[H1 H2]]; [left; by split; [right|] | right; split; [|done]];
                     intros n' [[[=]|H3] H4]; by apply (H1 n')
                  | intros [[[[=]|H1] H2]|[H1 H2]]; [left; by split | right; split; [|done]];
                     intros n' [H3 H4]; apply (H1 n'); split; [by right | done]]).
    destruct (isNaN n0) eqn:Hnan.
    + split.
      * intros [[H1 H2]|[H1 H2]]; [left; by split; [right|] | right; split; [|done]].
        intros n' [[[= -> ->]|H3] H4]; [congruence | by apply (H1 n')].
      * intros [[[[= -> ->]|H1] H2]|[H1 H2]]; [congruence | left; by split | right; split; [|done]].
        intros n' [H3 H4]. apply (H1 n'). split; [by right | done].
    + destruct (decide (k = k0)) as [->|Hne].
      * rewrite lookup_insert_eq. split.
        -- intros [[H1 H2]|[H1 [= ->]]]; [by destruct (Hfresh _ H1)|].
           left. split; [by left | done].
        -- intros [[[[= ->]|H1] H2]|[H1 H2]].
           ++ right. split; [|done]. intros n' [H3 _]. by apply (Hfresh _ H3).
           ++ by destruct (Hfresh _ H1).
           ++ exfalso. apply (H1 n0). split; [by left | done].
      * rewrite lookup_insert_ne by done. split.
        -- intros [[H1 H2]|[H1 H2]]; [left; by split; [right|] | right; split; [|done]].
           intros n' [[[= -> _]|H3] H4]; [done | by apply (H1 n')].
        -- intros [[[[= -> _]|H1] H2]|[H1 H2]]; [done | left; by split | right; split; [|done]].
           intros n' [H3 H4]. apply (H1 n'). split; [by right | done].
Qed.

Lemma numericEntries_assignable entries : forall (acc : gmap string number),
  fold_left
    (fun (labData : gmap string number) entry =>
       match snd entry with
       | JNumber n =>
           if isNaN n then labData
           else if String.eqb (fst entry) "__proto__" then labData
           else <[fst entry := n]> labData
       | _ => labData
       end) entries acc =
  fold_left
    (fun (labData : gmap string number) entry =>
       match snd entry with
       | JNumber n => if isNaN n then labData else <[fst entry := n]> labData
       | _ => labData
       end) (filter (fun entry => fst entry <> "__proto__") entries) acc.
Proof.
  induction entries as [|[k0 v0] entries IH]; intros acc; [done|].
  rewrite filter_cons. simpl. case_decide as Hk; simpl.
  - rewrite IH. apply String.eqb_neq in Hk. rewrite Hk.
    by destruct v0 as [| |n0| | |]; [..|destruct (isNaN n0)| | |].
  - subst k0. rewrite IH. simpl.
    by destruct v0 as [| |n0| | |]; [..|destruct (isNaN n0)| | |].
Qed.

Lemma numericEntries_lookup entries k n :
  NoDup (map fst entries) ->
  numericEntries entries !! k = Some n <-> k <> "__proto__" /\ numericAt entries k n.
Proof.
  intros Hnd. unfold numericEntries. rewrite numericEntries_assignable.
  rewrite numericEntries_fold.
  - rewrite lookup_empty. unfold numericAt. rewrite list_elem_of_filter. simpl.
    split; [intros [[[? ?] ?]|[_ [=]]]; done | intros [? [? ?]]; by left].
  - change (map fst ?l) with (fst <$> l) in *.
    apply (sublist_NoDup _ (fst <$> entries)); [exact Hnd|].
    apply fmap_sublist, sublist_filter.
Qed.

End StoredData.

Lemma entryData_lookup (userId : string) (labData : gmap string number) (k : string) :
  entryData userId labData !! k =
    match labData !! k with
    | Some n => Some (DbNumber n)
    | None => if decide (k = "userId") then Some (DbText userId) else None
    end.
Proof.
  unfold entryData. rewrite lookup_union, lookup_fmap.
  destruct (labData !! k); simpl.
  - by destruct ({["userId" := DbText userId]} !! k).
  - case_decide as Hk; [subst k; by rewrite lookup_singleton_eq|].
    by rewrite lookup_singleton_ne.
Qed.

Lemma entryData_entries (userId : string) (entries : list (string * Json)) :
  NoDup (map fst entries) ->
  let data := entryData userId (numericEntries entries) in
  (forall k n, data !! k = Some (DbNumber n) <->
     k <> "__proto__" /\ numericAt entries k n) /\
  (forall k s, data !! k = Some (DbText s) <->
     k = "userId" /\ s = userId /\ forall n, ~ numericAt entries "userId" n).
Proof.
  intros Hnd data. subst data.
  pose proof (numericEntries_lookup entries) as Hnum.
  split.
  - intros k n. rewrite <- Hnum by done. rewrite entryData_lookup.
    destruct (numericEntries entries !! k) as [n'|]; [split; congruence|].
    case_decide; split; discriminate.
  - intros k s. rewrite entryData_lookup.
    destruct (numericEntries entries !! k) as [n'|] eqn:E.
    + split; [discriminate|].
      intros (-> & _ & Hnone). destruct (Hnone n'). by apply Hnum.
    + case_decide as Hk; [subst k | split; [discriminate | by intros [? _]]].
      split.
      * intros [= ->]. split; [done|]. split; [done|].
        intros n Hn.
        assert (numericEntries entries !! "userId" = Some n) by by apply Hnum.
        congruence.
      * by intros (_ & -> & _).
Qed.

(** X22: the row that the report route asks the database to create holds,
    as numbers, exactly the entries of "labs" whose value is a number
    other than NaN and whose key is not "__proto__" (strings, booleans,
    null and nested values are dropped, and so is a number under the key
    "__proto__", which the assignment does not store), and the id of the
    signed-in user under "userId", unless "labs" itself has a numeric
    entry "userId", which then takes its place. *)
Theorem stored_lab_entry
    (fetchReport : Json -> Result (bool * string))
    (parseJSON : string -> Result Json)
    (createLabEntry : gmap string DbValue -> Result unit)
    (userId : string) (body : Json) (data : gmap string DbValue) :
  CreateAttempt data ∈ snd (POST fetchReport parseJSON createLabEntry (Some userId) (Ok body)) ->
  exists labs,
    field body "labs" = Some labs /\
    data = entryData userId (numericEntries (entriesOf labs)) /\
    (NoDup (map fst (entriesOf labs)) ->
     (forall k n, data !! k = Some (DbNumber n) <->
        k <> "__proto__" /\ numericAt (entriesOf labs) k n) /\
     (forall k s, data !! k = Some (DbText s) <->
        k = "userId" /\ s = userId /\
        forall n, ~ numericAt (entriesOf labs) "userId" n)).
Proof.
  intros Hin.
  assert (Hlabs : exists labs, field body "labs" = Some labs /\
                    data = entryData userId (numericEntries (entriesOf labs))).
  { unfold POST, forwardReport in Hin.
    destruct (field body "labs") as [[| | | |items|fields]|] eqn:Hl; simpl in Hin;
      try by inversion Hin.
    all: destruct (fetchReport _) as [[[] text]|m]; simpl in Hin;
      try (apply list_elem_of_singleton in Hin; discriminate Hin).
    all: destruct (parseJSON text) as [report|m]; simpl in Hin;
      try (apply list_elem_of_singleton in Hin; discriminate Hin).
    all: destruct (createLabEntry _); simpl in Hin.
    all: apply elem_of_cons in Hin as [[=]|Hin];
      apply list_elem_of_singleton in Hin as [= ->]; eauto. }
  destruct Hlabs as (labs & Hl & ->). exists labs. split; [done|]. split; [done|].
  intros Hnd. exact (entryData_entries userId (entriesOf labs) Hnd).
Qed.

Lemma stored_lab_entry_witness :
  exists labs,
    field (JObject [("labs", JObject [("ferritin", JNumber (Finite 12)); ("note", JString "x")])])
          "labs" = Some labs /\
    entryData "u1" (numericEntries [("ferritin", JNumber (Finite 12)); ("note", JString "x")]) =
      entryData "u1" (numericEntries (entriesOf labs)).
Proof.
  destruct (stored_lab_entry
              (fun _ => Ok (true, "{}")) (fun _ => Ok (JObject [])) (fun _ => Ok tt)
              "u1"
              (JObject [("labs", JObject [("ferritin", JNumber (Finite 12));
                                          ("note", JString "x")])])
              (entryData "u1" (numericEntries [("ferritin", JNumber (Finite 12));
                                               ("note", JString "x")])))
    as (labs & Hl & Hd & _).
  - right; left.
  - exists labs. split; [exact Hl | exact Hd].
Defined.
